(** * Load exit-order optimisation engine

    A shallow embedding of [frontend/src/utils/loadOptimization.ts]
    (exit-order sorter, group assembler, timing estimator, recommendation
    generator and capacity allocator) together with the properties its
    specification states about it, and of the code around it: the
    LoadOptimizer component that converts a roster and calls the engine,
    and the rating and capacity computations of the loads route.

    Conventions of the embedding.
    - A TypeScript [number] that the engine only reads, adds, subtracts or
      compares (weights, altitudes, fall rates, seat counts, lengths) is an
      integer of [Z]: on integers below 2^53 the double arithmetic of the
      engine is exact.  Weights that are not whole numbers are summed with
      rounding; the weight rule is therefore embedded a second time, on
      binary64 numbers, in [Double].
    - The two quotients the engine forms ([totalWeight / length] and
      [selected.length / availableSlots]) live in [JS.number], which keeps
      the values a division by zero produces in JavaScript ([NaN],
      [Infinity]) beside exact rationals.
    - An optional field [f?: T] is an [option T]; [None] is [undefined].
    - [Array.prototype.sort] belongs to the JavaScript runtime: ECMAScript
      only fixes that it is stable and that it follows the comparator's
      sign.  It is modelled by a stable insertion sort, see [JS.sort].
    - [jumpType] and [experienceLevel] range over the unions the interface
      declares, so the [default] branch of [getDefaultFallRate] and the
      no-match case of the switches of [getJumperPriority] have no
      counterpart there; [getDefaultFallRateOf] is the same switch on the
      strings themselves and keeps the [default] branch. *)

From Stdlib Require Import ZArith QArith List String Ascii Bool Lia.
From Stdlib Require Import Permutation Sorted.
From Stdlib Require Import DecimalString DecimalZ.
From Stdlib Require PrimFloat FloatOps SpecFloat Uint63.
Import ListNotations.

Local Open Scope Z_scope.
Local Open Scope list_scope.

(* ================================================================== *)
(** ** The JavaScript primitives the engine relies on *)
(* ================================================================== *)

Module JS.

(** The value of a quotient: [NaN], a signed [Infinity], or a finite
    value kept as an exact, reduced rational. *)
Inductive number : Type :=
| NaN : number
| Infinity (negative : bool) : number
| Finite (q : Q) : number.

(** [a / b] for two integer-valued operands: [0 / 0] is [NaN], [a / 0] is
    [Infinity] with the sign of [a], nothing is ever thrown. *)
Definition div (a b : Z) : number :=
  if b =? 0 then
    if a =? 0 then NaN else Infinity (a <? 0)
  else Finite (Qred (inject_Z a / inject_Z b)).

(** [x * k] for an integer constant [k]. *)
Definition times (x : number) (k : Z) : number :=
  match x with
  | NaN => NaN
  | Infinity s => if k =? 0 then NaN else Infinity (xorb s (k <? 0))
  | Finite q => Finite (Qred (q * inject_Z k))
  end.

(** [x > k]: every comparison with [NaN] is false. *)
Definition gt (x : number) (k : Z) : bool :=
  match x with
  | NaN => false
  | Infinity s => negb s
  | Finite q => negb (Qle_bool q (inject_Z k))
  end.

(** Truthiness of an optional number, as [||] tests it: [undefined] and
    [0] are falsy. *)
Definition or_else (v : option Z) (dflt : Z) : Z :=
  match v with
  | Some n => if n =? 0 then dflt else n
  | None => dflt
  end.

(** Truthiness of an optional boolean. *)
Definition truthy (v : option bool) : bool :=
  match v with
  | Some b => b
  | None => false
  end.

(** The decimal rendering a template literal gives an integer. *)
Definition to_string (z : Z) : string :=
  NilEmpty.string_of_int (Z.to_int z).

(** [Array.prototype.slice(start, end)]: a negative index counts from the
    end, both are clamped to the array, [end] defaults to the length. *)
Definition clamp_index (len i : Z) : Z :=
  if i <? 0 then Z.max (len + i) 0 else Z.min i len.

Definition slice {A : Type} (l : list A) (start : Z) (stop : option Z)
  : list A :=
  let len := Z.of_nat (List.length l) in
  let k := clamp_index len start in
  let final := match stop with
               | Some e => clamp_index len e
               | None => len
               end in
  firstn (Z.to_nat (final - k)) (skipn (Z.to_nat k) l).

(** [Array.prototype.sort(comparefn)], as a stable insertion sort.  [x]
    stands before the elements it is inserted into; it moves behind [y]
    only when [comparefn(x, y) > 0], so equal elements keep their input
    order.  For a comparator that is a consistent order every stable sort
    returns this list.  The exit-order comparator is consistent inside each
    jump type and between tandem, aff and the rest, but it answers 0 for a
    fun jump against a coach jump while ordering each of the two types by
    altitude: how those two types interleave is left to the engine, and
    here to the insertion order. *)
Fixpoint insert_by {A : Type} (cmp : A -> A -> Z) (x : A) (l : list A)
  : list A :=
  match l with
  | [] => [x]
  | y :: l' => if 0 <? cmp x y then y :: insert_by cmp x l' else x :: l
  end.

Definition sort {A : Type} (cmp : A -> A -> Z) (l : list A) : list A :=
  fold_right (insert_by cmp) [] l.

(** [new Set(values).size]: the number of distinct values; [undefined]
    ([None]) is a value like any other. *)
Definition opt_string_dec (a b : option string) : {a = b} + {a <> b}.
Proof. decide equality. apply string_dec. Defined.

Definition set_size (values : list (option string)) : nat :=
  List.length (nodup opt_string_dec values).

End JS.

(* ================================================================== *)
(** ** Data model *)
(* ================================================================== *)

Inductive JumpType : Type := tandem | aff | fun_jump | coach_jump.

Inductive ExperienceLevel : Type :=
  beginner | intermediate | advanced | expert.

Definition JumpType_eqb (a b : JumpType) : bool :=
  match a, b with
  | tandem, tandem | aff, aff | fun_jump, fun_jump
  | coach_jump, coach_jump => true
  | _, _ => false
  end.

Definition ExperienceLevel_eqb (a b : ExperienceLevel) : bool :=
  match a, b with
  | beginner, beginner | intermediate, intermediate
  | advanced, advanced | expert, expert => true
  | _, _ => false
  end.

(** The string a jump type is at run time. *)
Definition JumpType_string (t : JumpType) : string :=
  match t with
  | tandem => "tandem"
  | aff => "aff"
  | fun_jump => "fun_jump"
  | coach_jump => "coach_jump"
  end.

Module Jumper.
Record t : Type := mk {
  id : string;
  name : string;
  jumpType : JumpType;
  experienceLevel : ExperienceLevel;
  weight : Z;
  exitAltitude : Z;
  fallRate : option Z;
  requiresInstructor : option bool;
  instructorId : option string
}.
End Jumper.

Module JumpGroup.
Record t : Type := mk {
  jumpers : list Jumper.t;
  exitAltitude : Z;
  groupType : string;
  estimatedTime : Z
}.
End JumpGroup.

Module OptimizedLoad.
Record t : Type := mk {
  exitOrder : list Jumper.t;
  groups : list JumpGroup.t;
  totalTime : Z;
  recommendations : list string
}.
End OptimizedLoad.

(** The anonymous result type of [optimizeCapacity]. *)
Module Capacity.
Record t : Type := mk {
  selectedJumpers : list Jumper.t;
  waitingList : list Jumper.t;
  utilizationScore : JS.number
}.
End Capacity.

(* ================================================================== *)
(** ** Exit-order sorter *)
(* ================================================================== *)

Definition getDefaultFallRate (jumper : Jumper.t) : Z :=
  match Jumper.jumpType jumper with
  | tandem => 120
  | aff => 110
  | fun_jump =>
      if ExperienceLevel_eqb (Jumper.experienceLevel jumper) expert
      then 140 else 130
  | coach_jump => 125
  end.

(** [j.fallRate || getDefaultFallRate(j)] *)
Definition effectiveFallRate (j : Jumper.t) : Z :=
  JS.or_else (Jumper.fallRate j) (getDefaultFallRate j).

Definition is_type (t : JumpType) (j : Jumper.t) : bool :=
  JumpType_eqb (Jumper.jumpType j) t.

(** The comparator handed to [sort] in [calculateExitOrder]. *)
Definition exitCompare (a b : Jumper.t) : Z :=
  if is_type tandem a && negb (is_type tandem b) then -1
  else if is_type tandem b && negb (is_type tandem a) then 1
  else if is_type aff a && negb (is_type aff b) && negb (is_type tandem b)
  then -1
  else if is_type aff b && negb (is_type aff a) && negb (is_type tandem a)
  then 1
  else if JumpType_eqb (Jumper.jumpType a) (Jumper.jumpType b) then
    if negb (Jumper.exitAltitude a =? Jumper.exitAltitude b)
    then Jumper.exitAltitude b - Jumper.exitAltitude a
    else effectiveFallRate a - effectiveFallRate b
  else 0.

(* ================================================================== *)
(** ** Timing estimator *)
(* ================================================================== *)

Definition calculateGroupTime (jumpers : list Jumper.t) : Z :=
  let baseTime := 60 in
  let perJumperTime := 10 in
  baseTime + (Z.of_nat (List.length jumpers) - 1) * perJumperTime.

Definition calculateTotalTime (groups : list JumpGroup.t) : Z :=
  let climbTime := 20 * 60 in
  let groupTimes :=
    fold_left (fun total group => total + JumpGroup.estimatedTime group)
              groups 0 in
  let transitionTime := (Z.of_nat (List.length groups) - 1) * 30 in
  climbTime + groupTimes + transitionTime.

(* ================================================================== *)
(** ** Group assembler *)
(* ================================================================== *)

(** The template literal [`${jumper.jumpType}-${jumper.exitAltitude}`]. *)
Definition groupKey (jumper : Jumper.t) : string :=
  (JumpType_string (Jumper.jumpType jumper) ++ "-"
   ++ JS.to_string (Jumper.exitAltitude jumper))%string.

(** The four variables of the loop of [createJumpGroups]. *)
Record GroupLoop : Type := mkLoop {
  groups : list JumpGroup.t;
  currentGroup : list Jumper.t;
  currentAltitude : Z;
  currentType : string
}.

(** [groups.push] of the current group, when it is not empty. *)
Definition flushGroup (st : GroupLoop) : list JumpGroup.t :=
  if (0 <? List.length (currentGroup st))%nat then
    groups st ++ [JumpGroup.mk (currentGroup st) (currentAltitude st)
                               (currentType st)
                               (calculateGroupTime (currentGroup st))]
  else groups st.

(** One iteration of the [for ... of] loop. *)
Definition groupStep (st : GroupLoop) (jumper : Jumper.t) : GroupLoop :=
  let key := groupKey jumper in
  if negb (String.eqb (currentType st) key)
     || (8 <=? List.length (currentGroup st))%nat
  then mkLoop (flushGroup st) [jumper] (Jumper.exitAltitude jumper) key
  else mkLoop (groups st) (currentGroup st ++ [jumper])
              (currentAltitude st) (currentType st).

Definition createJumpGroups (jumpers : list Jumper.t) : list JumpGroup.t :=
  flushGroup (fold_left groupStep jumpers (mkLoop [] [] 0 "")).

(* ================================================================== *)
(** ** Recommendation generator *)
(* ================================================================== *)

Definition msgSplitTandems : string :=
  "Consider splitting tandems across multiple loads for safety".
Definition msgAffCoverage : string :=
  "High number of AFF students - ensure adequate instructor coverage".
Definition msgConsolidate : string :=
  "Multiple altitude changes - consider consolidating groups".
Definition msgInstructorCapacity : string :=
  "Instructor capacity may be exceeded - consider additional instructors".
Definition msgHeavyLoad : string :=
  "Heavy load - verify aircraft weight and balance limits".

(** [if (c) recommendations.push(msg)] *)
Definition pushIf (c : bool) (msg : string) (recommendations : list string)
  : list string :=
  if c then recommendations ++ [msg] else recommendations.

Definition instructorRequiredJumpers (allJumpers : list Jumper.t)
  : list Jumper.t :=
  filter (fun j => JS.truthy (Jumper.requiresInstructor j)) allJumpers.

(** [uniqueInstructors.size] *)
Definition uniqueInstructors (allJumpers : list Jumper.t) : nat :=
  JS.set_size (map Jumper.instructorId (instructorRequiredJumpers allJumpers)).

Definition totalWeight (allJumpers : list Jumper.t) : Z :=
  fold_left (fun sum j => sum + Jumper.weight j) allJumpers 0.

Definition avgWeight (allJumpers : list Jumper.t) : JS.number :=
  JS.div (totalWeight allJumpers) (Z.of_nat (List.length allJumpers)).

Definition generateRecommendations
  (groups : list JumpGroup.t) (allJumpers : list Jumper.t) : list string :=
  let tandemCount := List.length (filter (is_type tandem) allJumpers) in
  let affCount := List.length (filter (is_type aff) allJumpers) in
  let r0 := [] in
  let r1 := pushIf (6 <? tandemCount)%nat msgSplitTandems r0 in
  let r2 := pushIf (4 <? affCount)%nat msgAffCoverage r1 in
  let r3 := pushIf (5 <? List.length groups)%nat msgConsolidate r2 in
  let r4 :=
    pushIf (uniqueInstructors allJumpers * 2
              <? List.length (instructorRequiredJumpers allJumpers))%nat
           msgInstructorCapacity r3 in
  pushIf (JS.gt (avgWeight allJumpers) 200) msgHeavyLoad r4.

(* ================================================================== *)
(** ** The exit-order entry point *)
(* ================================================================== *)

Definition calculateExitOrder (jumpers : list Jumper.t) : OptimizedLoad.t :=
  let sortedJumpers := JS.sort exitCompare jumpers in
  let groups := createJumpGroups sortedJumpers in
  let totalTime := calculateTotalTime groups in
  let recommendations := generateRecommendations groups jumpers in
  OptimizedLoad.mk sortedJumpers groups totalTime recommendations.

(* ================================================================== *)
(** ** Capacity allocator *)
(* ================================================================== *)

Definition getJumperPriority (jumper : Jumper.t) : Z :=
  let priority := 0 in
  let priority :=
    match Jumper.jumpType jumper with
    | tandem => priority + 100
    | aff => priority + 80
    | coach_jump => priority + 60
    | fun_jump => priority + 40
    end in
  let priority :=
    if JS.truthy (Jumper.requiresInstructor jumper)
    then priority + 20 else priority in
  let priority :=
    match Jumper.experienceLevel jumper with
    | beginner => priority + 15
    | intermediate => priority + 10
    | advanced => priority + 5
    | expert => priority + 0
    end in
  priority.

(** The comparator handed to [sort] in [optimizeCapacity]. *)
Definition priorityCompare (a b : Jumper.t) : Z :=
  let aPriority := getJumperPriority a in
  let bPriority := getJumperPriority b in
  bPriority - aPriority.

Definition prioritizedJumpers (potentialJumpers : list Jumper.t)
  : list Jumper.t :=
  JS.sort priorityCompare potentialJumpers.

Definition optimizeCapacity
  (availableSlots : Z) (potentialJumpers : list Jumper.t) : Capacity.t :=
  let prioritized := prioritizedJumpers potentialJumpers in
  let selectedJumpers := JS.slice prioritized 0 (Some availableSlots) in
  let waitingList := JS.slice prioritized availableSlots None in
  let utilizationScore :=
    JS.times (JS.div (Z.of_nat (List.length selectedJumpers)) availableSlots)
             100 in
  Capacity.mk selectedJumpers waitingList utilizationScore.

(* ================================================================== *)
(** ** The weight rule and the default fall rate on the program's own values *)
(* ================================================================== *)

(** The weight rule of [generateRecommendations] on binary64 numbers, the
    values a [number] has at run time: sum, quotient and comparison are
    those of IEEE 754, rounding to nearest. *)
Module Double.
Import PrimFloat.

(** [allJumpers.length] as a number. *)
Definition of_Z (z : Z) : float := of_uint63 (Uint63.of_Z z).

(** [weights.reduce((sum, w) => sum + w, 0)] *)
Definition totalWeight (weights : list float) : float :=
  fold_left (fun sum w => add sum w) weights zero.

(** [totalWeight / allJumpers.length] *)
Definition avgWeight (weights : list float) : float :=
  div (totalWeight weights) (of_Z (Z.of_nat (List.length weights))).

(** [avgWeight > 200] *)
Definition heavyLoad (weights : list float) : bool :=
  ltb (of_Z 200) (avgWeight weights).

(** The number a binary64 value stands for, when it is finite. *)
Definition exactValue (x : float) : option Q :=
  match FloatOps.Prim2SF x with
  | SpecFloat.S754_zero _ => Some (inject_Z 0)
  | SpecFloat.S754_finite negative m e =>
      let magnitude :=
        if 0 <=? e then inject_Z (Z.pos m * 2 ^ e)
        else Z.pos m # Z.to_pos (2 ^ (- e)) in
      Some (if negative then Qopp magnitude else magnitude)
  | _ => None
  end.

End Double.

(** The [switch] of [getDefaultFallRate] on the strings themselves, with
    its [default] branch. *)
Definition ExperienceLevel_string (e : ExperienceLevel) : string :=
  match e with
  | beginner => "beginner"
  | intermediate => "intermediate"
  | advanced => "advanced"
  | expert => "expert"
  end.

Definition getDefaultFallRateOf (jumpType experienceLevel : string) : Z :=
  if String.eqb jumpType "tandem" then 120
  else if String.eqb jumpType "aff" then 110
  else if String.eqb jumpType "fun_jump" then
    if String.eqb experienceLevel "expert" then 140 else 130
  else if String.eqb jumpType "coach_jump" then 125
  else 130.

(* ================================================================== *)
(** ** The LoadOptimizer component, the engine's caller *)
(* ================================================================== *)

(** String primitives the component uses. *)
Module JSText.

(** [v || dflt] on an optional string: [undefined] and the empty string
    are falsy. *)
Definition or_else (v : option string) (dflt : string) : string :=
  match v with
  | Some EmptyString | None => dflt
  | Some s => s
  end.

Fixpoint fill (n : nat) (c : ascii) : string :=
  match n with
  | O => EmptyString
  | S n' => String c (fill n' c)
  end.

(** [s.padStart(targetLength, c)] for a one-character filler. *)
Definition padStart (s : string) (targetLength : nat) (c : ascii) : string :=
  (fill (targetLength - String.length s) c ++ s)%string.

End JSText.

(** [array.map((x, index) => f(x, index))], counting from [index]. *)
Fixpoint map_indexed {A B : Type} (f : A -> nat -> B) (index : nat)
  (l : list A) : list B :=
  match l with
  | [] => []
  | x :: l' => f x index :: map_indexed f (S index) l'
  end.

(** A roster entry as the component receives it ([any]): every field may
    be missing.  The two enumerations carry the values of the [Jumper]
    interface, and [None] is [undefined]: an [instructor_id] that is [null],
    which [any] lets through and a [Set] keeps apart from [undefined], is
    not represented, so nothing is stated below about the instructor rule
    on converted rosters. *)
Module RawJumper.
Record t : Type := mk {
  id : option string;
  jumper_name : option string;
  jump_type : option JumpType;
  experience_level : option ExperienceLevel;
  weight : option Z;
  exit_altitude : option Z;
  fall_rate : option Z;
  instructor_id : option string
}.
End RawJumper.

(** [v || dflt] on an optional enumeration value. *)
Definition enum_or_else {E : Type} (v : option E) (dflt : E) : E :=
  match v with
  | Some e => e
  | None => dflt
  end.

(** [jumper.jump_type === "tandem" || jumper.jump_type === "aff"] *)
Definition rawNeedsInstructor (jumper : RawJumper.t) : bool :=
  match RawJumper.jump_type jumper with
  | Some tandem | Some aff => true
  | _ => false
  end.

Definition convertEntry (jumper : RawJumper.t) (index : nat) : Jumper.t :=
  Jumper.mk
    (JSText.or_else (RawJumper.id jumper)
       ("jumper-" ++ JS.to_string (Z.of_nat index))%string)
    (JSText.or_else (RawJumper.jumper_name jumper)
       ("Jumper " ++ JS.to_string (Z.of_nat index + 1))%string)
    (enum_or_else (RawJumper.jump_type jumper) fun_jump)
    (enum_or_else (RawJumper.experience_level jumper) intermediate)
    (JS.or_else (RawJumper.weight jumper) 180)
    (JS.or_else (RawJumper.exit_altitude jumper) 14000)
    (RawJumper.fall_rate jumper)
    (Some (rawNeedsInstructor jumper))
    (RawJumper.instructor_id jumper).

Definition convertToOptimizationFormat (jumpers : list RawJumper.t)
  : list Jumper.t :=
  map_indexed convertEntry 0 jumpers.

(** What [runOptimization] stores: the engine's answer for the converted
    roster. *)
Definition runOptimization (currentJumpers : list RawJumper.t)
  : OptimizedLoad.t :=
  let jumpersData := convertToOptimizationFormat currentJumpers in
  calculateExitOrder jumpersData.

(** [formatTime]: [Math.floor(seconds / 60)] is the floor quotient, [%] the
    remainder with the sign of [seconds]. *)
Definition formatTime (seconds : Z) : string :=
  let minutes := seconds / 60 in
  let remainingSeconds := Z.rem seconds 60 in
  (JS.to_string minutes ++ ":"
   ++ JSText.padStart (JS.to_string remainingSeconds) 2 "0"%char)%string.

(** [selectedLoad.aircraft?.capacity || 15], the capacity the loads page
    hands to the component. *)
Definition aircraftCapacityOf (capacity : option Z) : Z :=
  JS.or_else capacity 15.

(** [(optimization.exitOrder.length / aircraftCapacity) * 100], the value
    of the utilization bar. *)
Definition shownUtilization (optimization : OptimizedLoad.t)
  (aircraftCapacity : Z) : JS.number :=
  JS.times
    (JS.div (Z.of_nat (List.length (OptimizedLoad.exitOrder optimization)))
            aircraftCapacity)
    100.

(* ================================================================== *)
(** ** The weather and aircraft pages of the loads route *)
(* ================================================================== *)

Module Condition.
Record t : Type := mk { color : string; text : string }.
End Condition.

(** [a <= b] and [a >= b] on finite numbers. *)
Definition num_le (a b : Q) : bool := Qle_bool a b.
Definition num_ge (a b : Q) : bool := Qle_bool b a.

Definition getWindCondition (windSpeed : Q) : Condition.t :=
  if num_le windSpeed (inject_Z 10) then Condition.mk "green" "Excellent"
  else if num_le windSpeed (inject_Z 15) then Condition.mk "yellow" "Good"
  else if num_le windSpeed (inject_Z 20) then Condition.mk "orange" "Marginal"
  else Condition.mk "red" "Poor".

Definition getVisibilityCondition (visibility : Q) : Condition.t :=
  if num_ge visibility (inject_Z 10) then Condition.mk "green" "Excellent"
  else if num_ge visibility (inject_Z 5) then Condition.mk "yellow" "Good"
  else if num_ge visibility (inject_Z 3) then Condition.mk "orange" "Marginal"
  else Condition.mk "red" "Poor".

Definition getCeilingCondition (ceiling : Q) : Condition.t :=
  if num_ge ceiling (inject_Z 5000) then Condition.mk "green" "Excellent"
  else if num_ge ceiling (inject_Z 3000) then Condition.mk "yellow" "Good"
  else if num_ge ceiling (inject_Z 2000) then Condition.mk "orange" "Marginal"
  else Condition.mk "red" "Poor".

(** The two fields of an aircraft record the page computes with. *)
Module Aircraft.
Record t : Type := mk { capacity : Z; is_active : option bool }.
End Aircraft.

Definition activeAircraft (aircraftList : list Aircraft.t)
  : list Aircraft.t :=
  filter (fun ac => JS.truthy (Aircraft.is_active ac)) aircraftList.

Definition totalCapacity (aircraftList : list Aircraft.t) : Z :=
  fold_left
    (fun sum ac =>
       if JS.truthy (Aircraft.is_active ac)
       then sum + Aircraft.capacity ac else sum)
    aircraftList 0.

(* ================================================================== *)
(** ** Sample rosters *)
(* ================================================================== *)

Module Sample.

(** A jumper with the fields the engine reads; the name is the id. *)
Definition jumper (i : string) (t : JumpType) (e : ExperienceLevel)
  (w alt : Z) : Jumper.t :=
  Jumper.mk i i t e w alt None None None.

(** Two tandems, the lower exit first in the input. *)
Definition lowTandem : Jumper.t := jumper "t-low" tandem beginner 180 10000.
Definition highTandem : Jumper.t := jumper "t-high" tandem beginner 180 14000.
Definition funJumper : Jumper.t := jumper "f" fun_jump expert 180 14000.

(** A fun jumper leaving low, a coach jump and a fun jumper leaving high. *)
Definition lowFun : Jumper.t := jumper "f-low" fun_jump expert 180 10000.
Definition coach : Jumper.t := jumper "c" coach_jump expert 180 12000.
Definition highFun : Jumper.t := jumper "f-high" fun_jump expert 180 14000.

(** A tandem passenger who needs an instructor and has none assigned. *)
Definition unassigned : Jumper.t :=
  Jumper.mk "u" "u" tandem beginner 180 14000 None (Some true) None.

(** A pool with priorities 40, 100, 80, 40, 100 in input order. *)
Definition f1 : Jumper.t := jumper "f1" fun_jump expert 180 14000.
Definition t1 : Jumper.t := jumper "t1" tandem expert 180 14000.
Definition a1 : Jumper.t := jumper "a1" aff expert 180 14000.
Definition f2 : Jumper.t := jumper "f2" fun_jump expert 180 14000.
Definition t2 : Jumper.t := jumper "t2" tandem expert 180 14000.
Definition pool : list Jumper.t := [f1; t1; a1; f2; t2].

(** The same five candidates, the priorities read 100, 100, 80, 40, 40. *)
Definition listed : list Jumper.t := [t1; t2; a1; f1; f2].

(** A fun jumper whose fall rate is supplied as 0. *)
Definition zeroRate : Jumper.t :=
  Jumper.mk "z0" "z0" fun_jump expert 180 14000 (Some 0) None None.

(** Three jumpers whose weights average exactly 200. *)
Definition mean200 : list Jumper.t :=
  [jumper "x" fun_jump expert 190 14000;
   jumper "y" fun_jump expert 200 14000;
   jumper "z" fun_jump expert 210 14000].

(** An expert fun jumper who supplies a fall rate of 100. *)
Definition slowFun : Jumper.t :=
  Jumper.mk "s" "s" fun_jump expert 180 14000 (Some 100) None None.

(** Whole weights from 150 to 250 and from 195 to 205 pounds. *)
Definition wholeWeights : list Z := map Z.of_nat (seq 150 101).
Definition nearThreshold : list Z := map Z.of_nat (seq 195 11).

(** A roster without coach jumps, and its jumpers in exit order. *)
Definition unmixedRoster : list Jumper.t := [f1; t1; a1].
Definition unmixedOrder : list Jumper.t := [t1; a1; f1].

(** Nine tandems with one key. *)
Definition nineTandems : list Jumper.t := repeat t1 9.

(** Raw entries: one with no field at all, one that only says tandem. *)
Definition rawBlank : RawJumper.t :=
  RawJumper.mk None None None None None None None None.
Definition rawTandem : RawJumper.t :=
  RawJumper.mk None None (Some tandem) None None None None None.

End Sample.

(** Four weights that are not whole numbers: the binary64 values nearest
    to 203.7, 186.9, 234.8 and 174.6.  As numbers they average exactly
    200. *)
Module DoubleSample.
Import PrimFloat.
#[local] Set Warnings "-inexact-float".
Definition fractional : list float := [203.7; 186.9; 234.8; 174.6]%float.
#[local] Set Warnings "+inexact-float".
End DoubleSample.

(* ================================================================== *)
(** ** Vocabulary of the statements *)
(* ================================================================== *)

(** The jumpers the loop of [createJumpGroups] has consumed so far: those of
    the finished groups, then those of the group being filled. *)
Definition placed (st : GroupLoop) : list Jumper.t :=
  List.concat (map JumpGroup.jumpers (groups st)) ++ currentGroup st.

(** Two jumpers have the same composite key. *)
Definition sameKey (a b : Jumper.t) : Prop :=
  Jumper.jumpType a = Jumper.jumpType b
  /\ Jumper.exitAltitude a = Jumper.exitAltitude b.

(** A group within the cap of 8; members that all carry one key. *)
Definition withinCap (g : JumpGroup.t) : Prop :=
  (List.length (JumpGroup.jumpers g) <= 8)%nat.

Definition keyedBy (key : string) (members : list Jumper.t) : Prop :=
  Forall (fun j => groupKey j = key) members.

Definition loopInvariant (st : GroupLoop) : Prop :=
  Forall (fun g => withinCap g
                   /\ keyedBy (JumpGroup.groupType g) (JumpGroup.jumpers g)
                   /\ JumpGroup.jumpers g <> [])
         (groups st)
  /\ (List.length (currentGroup st) <= 8)%nat
  /\ keyedBy (currentType st) (currentGroup st).

(** The loop of [createJumpGroups] read from the front: the groups it
    still pushes when the group being filled is [cg] (altitude [alt], key
    [ty]) and the jumpers [l] are left to read. *)
Fixpoint remainingGroups (cg : list Jumper.t) (alt : Z) (ty : string)
  (l : list Jumper.t) : list JumpGroup.t :=
  match l with
  | [] => flushGroup (mkLoop [] cg alt ty)
  | j :: l' =>
      let st := groupStep (mkLoop [] cg alt ty) j in
      groups st ++ remainingGroups (currentGroup st) (currentAltitude st)
                                   (currentType st) l'
  end.

(** The group being filled: within the cap, its members carrying the
    current key and altitude; it is empty only before the first jumper,
    when the key is still the empty string. *)
Definition filling (cg : list Jumper.t) (alt : Z) (ty : string) : Prop :=
  (List.length cg <= 8)%nat
  /\ Forall (fun j => groupKey j = ty /\ Jumper.exitAltitude j = alt) cg
  /\ (cg = [] -> ty = EmptyString).

(** Why a group ends where it does: the next one has another key, or this
    one is full. *)
Definition boundary (g h : JumpGroup.t) : Prop :=
  JumpGroup.groupType g <> JumpGroup.groupType h
  \/ List.length (JumpGroup.jumpers g) = 8%nat.

(** What every pushed group records about its members. *)
Definition describesMembers (g : JumpGroup.t) : Prop :=
  JumpGroup.jumpers g <> []
  /\ Forall (fun j => groupKey j = JumpGroup.groupType g
                      /\ Jumper.exitAltitude j = JumpGroup.exitAltitude g)
            (JumpGroup.jumpers g)
  /\ JumpGroup.estimatedTime g
     = 60 + 10 * (Z.of_nat (List.length (JumpGroup.jumpers g)) - 1).

(** The place of a jump type in the exit order: tandems, then AFF
    students, then fun and coach jumps alike. *)
Definition typeRank (t : JumpType) : Z :=
  match t with
  | tandem => 0
  | aff => 1
  | fun_jump | coach_jump => 2
  end.

(** [x] may stand before [y]: the class [f] comes first, and inside the
    class [x] is below [y] in the order [le]. *)
Definition class_order {A : Type} (f : A -> bool) (le : A -> A -> Prop)
  (x y : A) : Prop :=
  (f y = true -> f x = true) /\ (f x = true -> f y = true -> le x y).

(** The order the comparator gives two jumpers of one type: higher exit
    first, then the slower fall rate. *)
Definition exitsNoLater (a b : Jumper.t) : Prop :=
  Jumper.exitAltitude b < Jumper.exitAltitude a
  \/ (Jumper.exitAltitude a = Jumper.exitAltitude b
      /\ effectiveFallRate a <= effectiveFallRate b).

(** Tandems with a given exit altitude and effective fall rate. *)
Definition tandemAt (alt rate : Z) (j : Jumper.t) : bool :=
  is_type tandem j && (Jumper.exitAltitude j =? alt)
  && (effectiveFallRate j =? rate).

(** The arithmetic mean of a non-empty list of integers. *)
Definition arithmeticMean (values : list Z) : Q :=
  Qdiv (inject_Z (fold_right Z.add 0 values))
       (inject_Z (Z.of_nat (List.length values))).

(** The instructors assigned to the jumpers who need one: the distinct
    instructor ids that are present. *)
Definition assignedInstructors (allJumpers : list Jumper.t) : list string :=
  nodup string_dec
    (flat_map (fun j => match Jumper.instructorId j with
                        | Some i => [i]
                        | None => []
                        end)
              (instructorRequiredJumpers allJumpers)).

(** The priority table of the capacity allocator, as the specification
    lists it. *)
Definition basePriority (t : JumpType) : Z :=
  match t with
  | tandem => 100
  | aff => 80
  | coach_jump => 60
  | fun_jump => 40
  end.

Definition experienceBonus (e : ExperienceLevel) : Z :=
  match e with
  | beginner => 15
  | intermediate => 10
  | advanced => 5
  | expert => 0
  end.

Definition hasPriority (p : Z) (j : Jumper.t) : bool :=
  getJumperPriority j =? p.

(** The same jumper with no [fallRate] field. *)
Definition withoutFallRate (j : Jumper.t) : Jumper.t :=
  Jumper.mk (Jumper.id j) (Jumper.name j) (Jumper.jumpType j)
            (Jumper.experienceLevel j) (Jumper.weight j)
            (Jumper.exitAltitude j) None
            (Jumper.requiresInstructor j) (Jumper.instructorId j).

(** A roster entry with a fall rate of 0 replaced by an absent one. *)
Definition dropZeroFallRate (j : Jumper.t) : Jumper.t :=
  match Jumper.fallRate j with
  | Some 0 => withoutFallRate j
  | _ => j
  end.

(** Jumpers of one type with a given exit altitude and effective fall
    rate: the ties of the exit comparator. *)
Definition jumperAt (t : JumpType) (alt rate : Z) (j : Jumper.t) : bool :=
  is_type t j && (Jumper.exitAltitude j =? alt)
  && (effectiveFallRate j =? rate).

(** The order every exit order has: by type rank, and inside the tandems
    and inside the AFF students by altitude and fall rate. *)
Definition exitRankOrder (a b : Jumper.t) : Prop :=
  typeRank (Jumper.jumpType a) < typeRank (Jumper.jumpType b)
  \/ (typeRank (Jumper.jumpType a) = typeRank (Jumper.jumpType b)
      /\ (typeRank (Jumper.jumpType a) = 2 \/ exitsNoLater a b)).

(** The order by type rank, then altitude and fall rate inside each type. *)
Definition exitKeyOrder (a b : Jumper.t) : Prop :=
  typeRank (Jumper.jumpType a) < typeRank (Jumper.jumpType b)
  \/ (Jumper.jumpType a = Jumper.jumpType b /\ exitsNoLater a b).

(** A roster on which fun jumps and coach jumps do not meet. *)
Definition unmixed (roster : list Jumper.t) : Prop :=
  Forall (fun j => Jumper.jumpType j <> coach_jump) roster
  \/ Forall (fun j => Jumper.jumpType j <> fun_jump) roster.

(** The five messages in the order of their rules. *)
Definition allMessages : list string :=
  [msgSplitTandems; msgAffCoverage; msgConsolidate; msgInstructorCapacity;
   msgHeavyLoad].

Definition lacksInstructor (j : Jumper.t) : bool :=
  match Jumper.instructorId j with
  | None => true
  | Some _ => false
  end.

(** The present values of a list of optional ids. *)
Definition presentIds (ids : list (option string)) : list string :=
  flat_map (fun i => match i with Some s => [s] | None => [] end) ids.

(** [x] is the finite number [q]. *)
Definition numberIs (x : JS.number) (q : Q) : Prop :=
  exists q', x = JS.Finite q' /\ (q' == q)%Q.

(** How bad a condition is, read off its text. *)
Definition conditionRank (c : Condition.t) : nat :=
  if String.eqb (Condition.text c) "Excellent" then 0
  else if String.eqb (Condition.text c) "Good" then 1
  else if String.eqb (Condition.text c) "Marginal" then 2
  else 3.

(** A raw entry whose [id] is falsy, and the id it is given at [index]. *)
Definition rawHasNoId (r : RawJumper.t) : bool :=
  match RawJumper.id r with
  | None | Some EmptyString => true
  | Some _ => false
  end.

Definition synthesizedId (index : nat) : string :=
  ("jumper-" ++ JS.to_string (Z.of_nat index))%string.

(** A converted jumper as [convertToOptimizationFormat] leaves it. *)
Definition normalized (j : Jumper.t) : Prop :=
  Jumper.requiresInstructor j
  = Some (is_type tandem j || is_type aff j)
  /\ Jumper.weight j <> 0
  /\ Jumper.exitAltitude j <> 0
  /\ Jumper.id j <> EmptyString
  /\ Jumper.name j <> EmptyString.

(** The number two decimal digits spell. *)
Definition readTwoDigits (s : string) : option Z :=
  match s with
  | String a (String b EmptyString) =>
      Some (10 * (Z.of_nat (nat_of_ascii a) - 48)
            + (Z.of_nat (nat_of_ascii b) - 48))
  | _ => None
  end.

(** The arithmetic mean of the numbers a list of finite binary64 values
    stands for. *)
Fixpoint exactSum (weights : list PrimFloat.float) : option Q :=
  match weights with
  | [] => Some (inject_Z 0)
  | w :: rest =>
      match Double.exactValue w, exactSum rest with
      | Some v, Some total => Some (Qplus v total)
      | _, _ => None
      end
  end.

Definition exactMean (weights : list PrimFloat.float) : option Q :=
  option_map
    (fun total => Qdiv total (inject_Z (Z.of_nat (List.length weights))))
    (exactSum weights).

(** The weight rule on whole weights, in exact arithmetic. *)
Definition heavyOnWhole (weights : list Z) : bool :=
  200 * Z.of_nat (List.length weights) <? fold_right Z.add 0 weights.

(** The binary64 rule and the exact rule agree on a list of whole weights. *)
Definition rulesAgree (weights : list Z) : bool :=
  Bool.eqb (Double.heavyLoad (map Double.of_Z weights)) (heavyOnWhole weights).

(** The warnings other than the weight warning. *)
Definition withoutWeightWarning (recommendations : list string)
  : list string :=
  filter (fun m => negb (String.eqb m msgHeavyLoad)) recommendations.

(* ================================================================== *)
(** ** Facts about the JavaScript primitives *)
(* ================================================================== *)

Section SortFacts.

Context {A : Type} (cmp : A -> A -> Z).

Lemma insert_by_perm (x : A) (l : list A) :
  Permutation (x :: l) (JS.insert_by cmp x l).
Proof.
  induction l as [|y l IH]; simpl.
  - reflexivity.
  - destruct (0 <? cmp x y).
    + rewrite perm_swap. now constructor.
    + reflexivity.
Qed.

Lemma sort_perm (l : list A) : Permutation l (JS.sort cmp l).
Proof.
  induction l as [|x l IH]; simpl.
  - constructor.
  - rewrite <- insert_by_perm. now constructor.
Qed.

Lemma sort_length (l : list A) :
  List.length (JS.sort cmp l) = List.length l.
Proof. symmetry. apply Permutation_length, sort_perm. Qed.

(** Stability: elements of a class [f] that the comparator never moves
    behind one another come out in their input order. *)
Section Stable.
Variable f : A -> bool.
Hypothesis tied :
  forall x y, f x = true -> f y = true -> cmp x y <= 0.

Lemma insert_by_filter (x : A) (l : list A) :
  filter f (JS.insert_by cmp x l) = filter f (x :: l).
Proof.
  induction l as [|y l IH].
  - reflexivity.
  - cbn [JS.insert_by]. destruct (0 <? cmp x y) eqn:E.
    + apply Z.ltb_lt in E.
      cbn [filter] in *. rewrite IH.
      destruct (f x) eqn:Fx, (f y) eqn:Fy; try reflexivity.
      specialize (tied x y Fx Fy). lia.
    + reflexivity.
Qed.

Lemma sort_stable (l : list A) :
  filter f (JS.sort cmp l) = filter f l.
Proof.
  induction l as [|x l IH]; [reflexivity|].
  cbn [JS.sort fold_right]. rewrite insert_by_filter.
  cbn [filter]. unfold JS.sort in IH. now rewrite IH.
Qed.
End Stable.

(** Order: where the comparator is the sign of a transitive relation
    [le] inside a class [f], puts [f] before the rest and the rest
    behind [f], the output has all of [f] first and sorted by [le]. *)
Section Ordered.
Variable f : A -> bool.
Variable le : A -> A -> Prop.
Hypothesis f_first :
  forall x y, f x = true -> f y = false -> cmp x y <= 0.
Hypothesis rest_last :
  forall x y, f x = false -> f y = true -> 0 < cmp x y.
Hypothesis stays :
  forall x y, f x = true -> f y = true -> cmp x y <= 0 -> le x y.
Hypothesis moves :
  forall x y, f x = true -> f y = true -> 0 < cmp x y -> le y x.
Hypothesis le_trans :
  forall x y z, le x y -> le y z -> le x z.

Lemma insert_by_ordered (x : A) (l : list A) :
  StronglySorted (class_order f le) l ->
  StronglySorted (class_order f le) (JS.insert_by cmp x l).
Proof.
  induction 1 as [|y l Hl IH Hy]; cbn [JS.insert_by].
  - repeat constructor.
  - destruct (0 <? cmp x y) eqn:E.
    + apply Z.ltb_lt in E. constructor; [exact IH|].
      eapply Permutation_Forall; [apply insert_by_perm|].
      constructor; [|exact Hy].
      split.
      * intros Fx. destruct (f y) eqn:Fy; [reflexivity|].
        specialize (f_first x y Fx Fy). lia.
      * intros Fy Fx. now apply moves.
    + apply Z.ltb_ge in E.
      assert (Hxy : class_order f le x y).
      { split.
        - intros Fy. destruct (f x) eqn:Fx; [reflexivity|].
          specialize (rest_last x y Fx Fy). lia.
        - intros Fx Fy. now apply stays. }
      constructor; [now constructor|].
      constructor; [exact Hxy|].
      rewrite Forall_forall in Hy |- *. intros z Hz.
      destruct (Hy z Hz) as [Hzy Hle], Hxy as [Hyx Hle'].
      split.
      * intros Fz. auto.
      * intros Fx Fz. apply le_trans with y; auto.
Qed.

Lemma sort_ordered (l : list A) :
  StronglySorted (class_order f le) (JS.sort cmp l).
Proof.
  induction l as [|x l IH]; cbn [JS.sort fold_right].
  - constructor.
  - now apply insert_by_ordered.
Qed.
End Ordered.

End SortFacts.

(** What [StronglySorted] says about two positions. *)
Lemma StronglySorted_nth_error {A : Type} (R : A -> A -> Prop)
  (l : list A) :
  StronglySorted R l ->
  forall i j a b, (i < j)%nat ->
    nth_error l i = Some a -> nth_error l j = Some b -> R a b.
Proof.
  induction 1 as [|x l Hl IH Hx]; intros i j a b Hij Ha Hb.
  - destruct i; discriminate.
  - destruct j as [|j]; [lia|]. cbn in Hb.
    destruct i as [|i]; cbn in Ha.
    + injection Ha as <-. rewrite Forall_forall in Hx.
      apply Hx. eapply nth_error_In; eauto.
    + apply (IH i j); auto. lia.
Qed.


(** The decimal rendering of an integer determines it. *)
Lemma to_string_inj (a b : Z) : JS.to_string a = JS.to_string b -> a = b.
Proof.
  unfold JS.to_string. intros H.
  apply (f_equal NilEmpty.int_of_string) in H.
  rewrite !NilEmpty.isi in H. injection H as H.
  rewrite <- (DecimalZ.of_to a), <- (DecimalZ.of_to b). now f_equal.
Qed.

Lemma append_cancel_l (s a b : string) :
  (s ++ a)%string = (s ++ b)%string -> a = b.
Proof.
  induction s as [|c s IH]; cbn; intros H.
  - exact H.
  - injection H as H. auto.
Qed.

(** The group key is the pair (jump type, exit altitude), no more. *)
Lemma groupKey_inj (a b : Jumper.t) :
  groupKey a = groupKey b ->
  Jumper.jumpType a = Jumper.jumpType b
  /\ Jumper.exitAltitude a = Jumper.exitAltitude b.
Proof.
  unfold groupKey.
  destruct (Jumper.jumpType a), (Jumper.jumpType b); cbn [JumpType_string];
    intros H; try (cbn in H; discriminate H);
    (split; [reflexivity|]);
    apply append_cancel_l, append_cancel_l in H; now apply to_string_inj.
Qed.

(** No group key is the empty string the loop starts from. *)
Lemma groupKey_nonempty (a : Jumper.t) : groupKey a <> EmptyString.
Proof. unfold groupKey. destruct (Jumper.jumpType a); discriminate. Qed.

Section SliceFacts.

Context {A : Type}.

Lemma slice_prefix (l : list A) (n : nat) :
  JS.slice l 0 (Some (Z.of_nat n)) = firstn (Nat.min n (List.length l)) l.
Proof.
  unfold JS.slice, JS.clamp_index. cbn [Z.ltb Z.compare].
  destruct (Z.ltb_spec (Z.of_nat n) 0) as [H|_]; [lia|].
  rewrite (Z.min_l 0) by lia. cbn [Z.to_nat skipn]. f_equal. lia.
Qed.

Lemma slice_suffix (l : list A) (n : nat) :
  JS.slice l (Z.of_nat n) None = skipn (Nat.min n (List.length l)) l.
Proof.
  unfold JS.slice, JS.clamp_index.
  destruct (Z.ltb_spec (Z.of_nat n) 0) as [H|_]; [lia|].
  replace (Z.to_nat (Z.min (Z.of_nat n) (Z.of_nat (List.length l))))
    with (Nat.min n (List.length l)) by lia.
  apply firstn_all2. rewrite length_skipn. lia.
Qed.

End SliceFacts.

(** A quotient by a positive integer exceeds [k] exactly when the dividend
    exceeds [k] times the divisor. *)
Lemma quotient_as_fraction (t : Z) (p : positive) :
  (inject_Z t / inject_Z (Z.pos p) == t # p)%Q.
Proof.
  unfold Qdiv, inject_Z. rewrite Qinv_pos.
  unfold Qeq, Qmult. cbn. lia.
Qed.

Lemma gt_div_pos (t k : Z) (p : positive) :
  JS.gt (JS.div t (Z.pos p)) k = true <-> k * Z.pos p < t.
Proof.
  unfold JS.gt, JS.div. cbn [Z.eqb].
  rewrite negb_true_iff, <- not_true_iff_false, Qle_bool_iff.
  rewrite Qred_correct, quotient_as_fraction.
  unfold Qle, inject_Z. cbn. lia.
Qed.

(* ================================================================== *)
(** ** Group assembler: the loop and its invariant *)
(* ================================================================== *)

Lemma concat_map_snoc (gs : list JumpGroup.t) (g : JumpGroup.t) :
  List.concat (map JumpGroup.jumpers (gs ++ [g]))
  = List.concat (map JumpGroup.jumpers gs) ++ JumpGroup.jumpers g.
Proof. now rewrite map_app, concat_app; cbn; rewrite app_nil_r. Qed.

Lemma flushGroup_placed (st : GroupLoop) :
  List.concat (map JumpGroup.jumpers (flushGroup st)) = placed st.
Proof.
  unfold flushGroup, placed.
  destruct (currentGroup st) as [|j cg] eqn:E; cbn [List.length Nat.ltb Nat.leb].
  - now rewrite app_nil_r.
  - now rewrite concat_map_snoc.
Qed.

Lemma groupStep_placed (st : GroupLoop) (j : Jumper.t) :
  placed (groupStep st j) = placed st ++ [j].
Proof.
  unfold groupStep.
  destruct (negb _ || _).
  - unfold placed at 1. cbn [groups currentGroup].
    now rewrite flushGroup_placed.
  - unfold placed. cbn [groups currentGroup]. now rewrite app_assoc.
Qed.

Lemma loop_placed (l : list Jumper.t) (st : GroupLoop) :
  placed (fold_left groupStep l st) = placed st ++ l.
Proof.
  revert st. induction l as [|j l IH]; intros st; cbn [fold_left].
  - now rewrite app_nil_r.
  - rewrite IH, groupStep_placed, <- app_assoc. reflexivity.
Qed.

Lemma createJumpGroups_concat (l : list Jumper.t) :
  List.concat (map JumpGroup.jumpers (createJumpGroups l)) = l.
Proof.
  unfold createJumpGroups. rewrite flushGroup_placed, loop_placed.
  reflexivity.
Qed.

Lemma flushGroup_invariant (st : GroupLoop) :
  loopInvariant st ->
  Forall (fun g => withinCap g
                   /\ keyedBy (JumpGroup.groupType g) (JumpGroup.jumpers g)
                   /\ JumpGroup.jumpers g <> [])
         (flushGroup st).
Proof.
  intros (Hg & Hlen & Hkey). unfold flushGroup.
  destruct (currentGroup st) as [|j cg] eqn:E; cbn [List.length Nat.ltb Nat.leb].
  - exact Hg.
  - apply Forall_app. split; [exact Hg|].
    constructor; [|constructor].
    unfold withinCap. cbn [JumpGroup.jumpers JumpGroup.groupType].
    split; [exact Hlen|]. split; [exact Hkey|discriminate].
Qed.

Lemma groupStep_invariant (st : GroupLoop) (j : Jumper.t) :
  loopInvariant st -> loopInvariant (groupStep st j).
Proof.
  intros Inv. unfold groupStep.
  destruct (negb (String.eqb (currentType st) (groupKey j))) eqn:Ek;
    cbn [orb].
  - split; [now apply flushGroup_invariant|].
    cbn [currentGroup currentType List.length]. split; [lia|].
    now repeat constructor.
  - destruct (8 <=? List.length (currentGroup st))%nat eqn:Ecap.
    + split; [now apply flushGroup_invariant|].
      cbn [currentGroup currentType List.length]. split; [lia|].
      now repeat constructor.
    + apply negb_false_iff, String.eqb_eq in Ek.
      apply Nat.leb_gt in Ecap.
      destruct Inv as (Hg & Hlen & Hkey).
      split; [exact Hg|]. cbn [currentGroup currentType].
      split.
      * rewrite length_app. cbn. lia.
      * apply Forall_app. split; [exact Hkey|].
        constructor; [now symmetry|constructor].
Qed.

Lemma loop_invariant (l : list Jumper.t) (st : GroupLoop) :
  loopInvariant st -> loopInvariant (fold_left groupStep l st).
Proof.
  revert st. induction l as [|j l IH]; intros st Inv; cbn [fold_left].
  - exact Inv.
  - now apply IH, groupStep_invariant.
Qed.

Lemma createJumpGroups_invariant (l : list Jumper.t) :
  Forall (fun g => withinCap g
                   /\ keyedBy (JumpGroup.groupType g) (JumpGroup.jumpers g)
                   /\ JumpGroup.jumpers g <> [])
         (createJumpGroups l).
Proof.
  apply flushGroup_invariant, loop_invariant.
  repeat split; cbn; try constructor. lia.
Qed.

Lemma keyedBy_sameKey (key : string) (members : list Jumper.t) :
  keyedBy key members ->
  forall a b, In a members -> In b members -> sameKey a b.
Proof.
  unfold keyedBy. rewrite Forall_forall. intros H a b Ha Hb.
  apply groupKey_inj. now rewrite (H a Ha), (H b Hb).
Qed.

(* ================================================================== *)
(** ** Exit-order sorter: the comparator *)
(* ================================================================== *)

Ltac by_jump_types a b :=
  unfold exitCompare, is_type;
  destruct (Jumper.jumpType a), (Jumper.jumpType b);
  cbn [JumpType_eqb andb negb]; try discriminate; try lia.

Ltac by_altitudes a b :=
  destruct (Z.eqb_spec (Jumper.exitAltitude a) (Jumper.exitAltitude b));
  cbn [negb]; unfold exitsNoLater; intros; lia.

Lemma exitCompare_tandem_first (a b : Jumper.t) :
  is_type tandem a = true -> is_type tandem b = false ->
  exitCompare a b <= 0.
Proof. by_jump_types a b. Qed.

Lemma exitCompare_rest_last (a b : Jumper.t) :
  is_type tandem a = false -> is_type tandem b = true ->
  0 < exitCompare a b.
Proof. by_jump_types a b. Qed.

Lemma exitCompare_stays (a b : Jumper.t) :
  is_type tandem a = true -> is_type tandem b = true ->
  exitCompare a b <= 0 -> exitsNoLater a b.
Proof. by_jump_types a b. intros _ _. by_altitudes a b. Qed.

Lemma exitCompare_moves (a b : Jumper.t) :
  is_type tandem a = true -> is_type tandem b = true ->
  0 < exitCompare a b -> exitsNoLater b a.
Proof. by_jump_types a b. intros _ _. by_altitudes a b. Qed.

Lemma exitsNoLater_trans (a b c : Jumper.t) :
  exitsNoLater a b -> exitsNoLater b c -> exitsNoLater a c.
Proof. unfold exitsNoLater. lia. Qed.

Lemma exitCompare_tied (alt rate : Z) (a b : Jumper.t) :
  tandemAt alt rate a = true -> tandemAt alt rate b = true ->
  exitCompare a b <= 0.
Proof.
  unfold tandemAt. rewrite !andb_true_iff, !Z.eqb_eq.
  intros ((Ta & Ha) & Ra) ((Tb & Hb) & Rb). revert Ta Tb.
  by_jump_types a b. intros _ _.
  destruct (Z.eqb_spec (Jumper.exitAltitude a) (Jumper.exitAltitude b));
    cbn [negb]; lia.
Qed.

(** The comparator ties a fun jump with a coach jump whatever their
    altitudes, yet orders two fun jumps by altitude: it is not the sign of
    one order on all jumpers. *)
Example exitCompare_ties_fun_with_coach :
  exitCompare Sample.lowFun Sample.coach = 0
  /\ exitCompare Sample.coach Sample.highFun = 0
  /\ 0 < exitCompare Sample.lowFun Sample.highFun.
Proof. repeat split. Qed.

Lemma exit_order_class_order (roster : list Jumper.t) :
  StronglySorted (class_order (is_type tandem) exitsNoLater)
                 (JS.sort exitCompare roster).
Proof.
  apply sort_ordered.
  - apply exitCompare_tandem_first.
  - apply exitCompare_rest_last.
  - apply exitCompare_stays.
  - apply exitCompare_moves.
  - apply exitsNoLater_trans.
Qed.

(* ================================================================== *)
(** ** Recommendation generator: which rule pushed which message *)
(* ================================================================== *)

Lemma In_pushIf (c : bool) (msg m : string) (r : list string) :
  In m (pushIf c msg r) <-> (c = true /\ m = msg) \/ In m r.
Proof.
  unfold pushIf. destruct c.
  - rewrite in_app_iff. cbn. intuition congruence.
  - intuition congruence.
Qed.

Lemma instructor_warning_iff (groups : list JumpGroup.t)
  (allJumpers : list Jumper.t) :
  In msgInstructorCapacity (generateRecommendations groups allJumpers)
  <-> (uniqueInstructors allJumpers * 2
       < List.length (instructorRequiredJumpers allJumpers))%nat.
Proof.
  unfold generateRecommendations. cbv zeta.
  rewrite !In_pushIf, Nat.ltb_lt. cbn [In].
  intuition discriminate.
Qed.

Lemma weight_warning_iff (groups : list JumpGroup.t)
  (allJumpers : list Jumper.t) :
  In msgHeavyLoad (generateRecommendations groups allJumpers)
  <-> JS.gt (avgWeight allJumpers) 200 = true.
Proof.
  unfold generateRecommendations. cbv zeta.
  rewrite !In_pushIf. cbn [In].
  intuition discriminate.
Qed.

Lemma totalWeight_from (l : list Jumper.t) (acc : Z) :
  fold_left (fun sum j => sum + Jumper.weight j) l acc
  = acc + fold_right Z.add 0 (map Jumper.weight l).
Proof.
  revert acc. induction l as [|j l IH]; intros acc; cbn.
  - lia.
  - rewrite IH. lia.
Qed.

Lemma totalWeight_sum (l : list Jumper.t) :
  totalWeight l = fold_right Z.add 0 (map Jumper.weight l).
Proof. unfold totalWeight. now rewrite totalWeight_from. Qed.

(** The engine's test [avgWeight > 200] against the arithmetic mean. *)
Lemma avgWeight_gt_iff (roster : list Jumper.t) :
  JS.gt (avgWeight roster) 200 = true
  <-> roster <> []
      /\ (inject_Z 200 < arithmeticMean (map Jumper.weight roster))%Q.
Proof.
  unfold avgWeight, arithmeticMean. rewrite length_map, totalWeight_sum.
  destruct roster as [|j l].
  - cbn. split; [discriminate|]. intros [H _]. now elim H.
  - set (t := fold_right Z.add 0 (map Jumper.weight (j :: l))).
    cbn [List.length]. rewrite Nat2Z.inj_succ, <- Zpos_P_of_succ_nat.
    rewrite gt_div_pos, quotient_as_fraction.
    unfold Qlt, inject_Z. cbn [Qnum Qden].
    split; [intros H; split; [discriminate|lia] | intros [_ H]; lia].
Qed.

Lemma StronglySorted_weaken {A : Type} (R R' : A -> A -> Prop)
  (l : list A) :
  (forall x y, R x y -> R' x y) ->
  StronglySorted R l -> StronglySorted R' l.
Proof.
  intros HR. induction 1 as [|x l Hl IH Hx]; constructor; auto.
  eapply Forall_impl; [|exact Hx]. auto.
Qed.

Lemma prioritized_sorted (pool : list Jumper.t) :
  StronglySorted (fun a b => getJumperPriority b <= getJumperPriority a)
                 (prioritizedJumpers pool).
Proof.
  unfold prioritizedJumpers.
  eapply StronglySorted_weaken;
    [|apply (sort_ordered priorityCompare (fun _ => true)
               (fun a b => getJumperPriority b <= getJumperPriority a))];
    unfold class_order, priorityCompare; cbv zeta; intros; lia.
Qed.

Lemma prioritized_stable (pool : list Jumper.t) (p : Z) :
  filter (hasPriority p) (prioritizedJumpers pool)
  = filter (hasPriority p) pool.
Proof.
  apply sort_stable. unfold hasPriority, priorityCompare. cbv zeta.
  intros x y Hx Hy. apply Z.eqb_eq in Hx, Hy. lia.
Qed.

(* ================================================================== *)
(** ** The properties of the specification *)
(* ================================================================== *)

(** C1.  The total time the engine reports for an empty roster.  With no
    group the transition term is [(0 - 1) * 30 = -30], and it is added: the
    result is 1170 seconds, thirty less than the climb alone. *)
Theorem empty_roster_total_time :
  OptimizedLoad.groups (calculateExitOrder []) = []
  /\ OptimizedLoad.totalTime (calculateExitOrder []) = 1170
  /\ OptimizedLoad.totalTime (calculateExitOrder []) <> 1200
  /\ calculateTotalTime [] = 20 * 60 + 0 + (0 - 1) * 30.
Proof. repeat split. discriminate. Qed.

(** C2.  A tandem passenger who requires an instructor and has none
    assigned: one jumper needs an instructor ([R = 1]), no instructor id is
    present ([U = 0]), and still no capacity warning is pushed, because
    [new Set] counts the absent id as one instructor. *)
Theorem unassigned_cohort_not_flagged :
  let roster := [Sample.unassigned] in
  List.length (instructorRequiredJumpers roster) = 1%nat
  /\ List.length (assignedInstructors roster) = 0%nat
  /\ uniqueInstructors roster = 1%nat
  /\ ~ In msgInstructorCapacity
          (OptimizedLoad.recommendations (calculateExitOrder roster)).
Proof.
  cbv zeta. repeat split.
  unfold calculateExitOrder. cbn [OptimizedLoad.recommendations].
  rewrite instructor_warning_iff. cbn. lia.
Qed.

(** With no seat the score is not 0.  Shown on the five-jumper sample
    pool. *)
Lemma zero_seats_score_is_not_zero :
  let r := optimizeCapacity 0 Sample.pool in
  ~ (Capacity.selectedJumpers r = []
     /\ Permutation Sample.pool (Capacity.waitingList r)
     /\ Capacity.utilizationScore r = JS.Finite 0).
Proof. cbv zeta. intros (_ & _ & H). discriminate H. Qed.

(** C3.  What [optimizeCapacity] returns for no seat.  It selects nobody
    and puts every candidate on the waiting list (in priority order), as
    the specification says; but the score it reports is [0 / 0 * 100],
    which is [NaN] and not the 0 the specification asks for: the division
    has no case for a zero seat count.  Nothing is thrown. *)
Theorem zero_seats_waitlists_everyone (pool : list Jumper.t) :
  let r := optimizeCapacity 0 pool in
  Capacity.selectedJumpers r = []
  /\ Capacity.waitingList r = prioritizedJumpers pool
  /\ Permutation pool (Capacity.waitingList r)
  /\ Capacity.utilizationScore r = JS.NaN.
Proof.
  cbv zeta. unfold optimizeCapacity. cbv zeta.
  cbn [Capacity.selectedJumpers Capacity.waitingList
       Capacity.utilizationScore].
  pose proof (slice_prefix (prioritizedJumpers pool) 0) as Hs.
  pose proof (slice_suffix (prioritizedJumpers pool) 0) as Hw.
  cbn [Z.of_nat Nat.min firstn skipn] in Hs, Hw.
  rewrite Hs, Hw. repeat split. apply sort_perm.
Qed.

(** The same function, with at least one seat and nobody to select, does
    report 0. *)
Lemma empty_selection_scores_zero (seats : positive) :
  Capacity.selectedJumpers (optimizeCapacity (Z.pos seats) []) = []
  /\ Capacity.utilizationScore (optimizeCapacity (Z.pos seats) [])
     = JS.Finite 0.
Proof.
  split; [reflexivity|].
  unfold optimizeCapacity, JS.slice, JS.div, JS.times. cbv zeta.
  cbn [prioritizedJumpers JS.sort fold_right List.length firstn skipn
       Z.of_nat Z.eqb Z.to_nat].
  rewrite firstn_nil. cbn [List.length Z.of_nat].
  replace (Qred (inject_Z 0 / inject_Z (Z.pos seats))) with (Qred 0).
  - reflexivity.
  - apply Qred_complete. unfold Qeq, Qdiv, Qmult, inject_Z.
    cbn [Qnum Qden Z.mul]. reflexivity.
Qed.

(** C4.  The exit order is a permutation of the roster: the same jumpers,
    hence the same multiset of ids and the same number of entries. *)
Theorem exit_order_is_permutation (roster : list Jumper.t) :
  let out := OptimizedLoad.exitOrder (calculateExitOrder roster) in
  Permutation roster out
  /\ Permutation (map Jumper.id roster) (map Jumper.id out)
  /\ List.length out = List.length roster.
Proof.
  cbv zeta. cbn [calculateExitOrder OptimizedLoad.exitOrder].
  pose proof (sort_perm exitCompare roster) as H.
  repeat split.
  - exact H.
  - now apply Permutation_map.
  - symmetry. now apply Permutation_length.
Qed.

(** C5, as the specification states it, fails: two tandems leave in the
    order of their exit altitudes, not in their input order. *)
Lemma tandem_input_order_not_kept :
  let roster := [Sample.lowTandem; Sample.highTandem] in
  let out := OptimizedLoad.exitOrder (calculateExitOrder roster) in
  out = [Sample.highTandem; Sample.lowTandem]
  /\ filter (is_type tandem) out <> filter (is_type tandem) roster.
Proof. cbv zeta. split; [reflexivity|discriminate]. Qed.

(** C5, amended.  In the exit order every tandem stands before every
    jumper who is not a tandem; the tandems themselves stand by descending
    exit altitude, then by ascending fall rate (the supplied one, or the
    default); tandems equal on both keep their input order. *)
Theorem tandems_exit_first (roster : list Jumper.t) :
  let out := OptimizedLoad.exitOrder (calculateExitOrder roster) in
  (forall i j a b,
      nth_error out i = Some a -> nth_error out j = Some b ->
      is_type tandem a = true -> is_type tandem b = false -> (i < j)%nat)
  /\ (forall i j a b,
         (i < j)%nat ->
         nth_error out i = Some a -> nth_error out j = Some b ->
         is_type tandem a = true -> is_type tandem b = true ->
         exitsNoLater a b)
  /\ (forall alt rate,
         filter (tandemAt alt rate) out = filter (tandemAt alt rate) roster).
Proof.
  cbv zeta. cbn [calculateExitOrder OptimizedLoad.exitOrder].
  pose proof (exit_order_class_order roster) as S.
  pose proof (StronglySorted_nth_error _ _ S) as P.
  split; [|split].
  - intros i j a b Ha Hb Ta Tb.
    destruct (Nat.lt_trichotomy i j) as [L|[E|G]]; [exact L| |].
    + subst j. congruence.
    + destruct (P j i b a G Hb Ha) as [first _].
      rewrite (first Ta) in Tb. discriminate.
  - intros i j a b L Ha Hb Ta Tb.
    destruct (P i j a b L Ha Hb) as [_ order]. now apply order.
  - intros alt rate. apply sort_stable. apply exitCompare_tied.
Qed.

(** C6.  The groups, read in order, spell the exit order: concatenating
    their members gives it back, no group is empty, and an empty roster
    gives no group. *)
Theorem groups_concatenate_to_exit_order (roster : list Jumper.t) :
  let load := calculateExitOrder roster in
  List.concat (map JumpGroup.jumpers (OptimizedLoad.groups load))
  = OptimizedLoad.exitOrder load
  /\ Forall (fun g => JumpGroup.jumpers g <> []) (OptimizedLoad.groups load)
  /\ OptimizedLoad.groups (calculateExitOrder []) = []
  /\ createJumpGroups [] = [].
Proof.
  cbv zeta. cbn [calculateExitOrder OptimizedLoad.groups
                 OptimizedLoad.exitOrder].
  split; [apply createJumpGroups_concat|].
  split; [|split; reflexivity].
  eapply Forall_impl; [|apply createJumpGroups_invariant].
  cbv beta. tauto.
Qed.

(** C7.  Whatever sequence the assembler is given, and so for the groups
    of every roster: a group has at most 8 jumpers, its members all carry
    the key the group is labelled with, and any two of them have the same
    jump type and the same exit altitude. *)
Theorem groups_capped_and_uniform (jumpers roster : list Jumper.t) :
  let uniform (g : JumpGroup.t) :=
    (List.length (JumpGroup.jumpers g) <= 8)%nat
    /\ (forall a, In a (JumpGroup.jumpers g) ->
                  groupKey a = JumpGroup.groupType g)
    /\ (forall a b, In a (JumpGroup.jumpers g) -> In b (JumpGroup.jumpers g) ->
                    Jumper.jumpType a = Jumper.jumpType b
                    /\ Jumper.exitAltitude a = Jumper.exitAltitude b) in
  Forall uniform (createJumpGroups jumpers)
  /\ Forall uniform (OptimizedLoad.groups (calculateExitOrder roster)).
Proof.
  cbv zeta. cbn [calculateExitOrder OptimizedLoad.groups].
  assert (H : forall l, Forall (fun g =>
    (List.length (JumpGroup.jumpers g) <= 8)%nat
    /\ (forall a, In a (JumpGroup.jumpers g) ->
                  groupKey a = JumpGroup.groupType g)
    /\ (forall a b, In a (JumpGroup.jumpers g) -> In b (JumpGroup.jumpers g) ->
                    Jumper.jumpType a = Jumper.jumpType b
                    /\ Jumper.exitAltitude a = Jumper.exitAltitude b))
    (createJumpGroups l)).
  { intros l. eapply Forall_impl; [|apply createJumpGroups_invariant].
    cbv beta. intros g (Hcap & Hkey & _). split; [exact Hcap|].
    split.
    - unfold keyedBy in Hkey. rewrite Forall_forall in Hkey. exact Hkey.
    - exact (keyedBy_sameKey _ _ Hkey). }
  split; apply H.
Qed.

(** C8.  [optimizeCapacity] ranks the pool by the priority table, highest
    first and equal priorities in input order, admits the first
    [min(S, poolSize)] of the ranking and waitlists the rest.  On the five
    candidates with priorities 100, 100, 80, 40, 40 and three seats (as
    listed, and shuffled) it admits the two tandems and the AFF student,
    waitlists the two fun jumpers and reports a score of 100. *)
Theorem capacity_selects_by_priority (seats : nat) (pool : list Jumper.t) :
  let r := optimizeCapacity (Z.of_nat seats) pool in
  let ranked := prioritizedJumpers pool in
  let admitted := Nat.min seats (List.length pool) in
  (forall j,
      getJumperPriority j
      = basePriority (Jumper.jumpType j)
        + (if JS.truthy (Jumper.requiresInstructor j) then 20 else 0)
        + experienceBonus (Jumper.experienceLevel j))
  /\ Permutation pool ranked
  /\ StronglySorted
       (fun a b => getJumperPriority b <= getJumperPriority a) ranked
  /\ (forall p, filter (hasPriority p) ranked = filter (hasPriority p) pool)
  /\ Capacity.selectedJumpers r = firstn admitted ranked
  /\ Capacity.waitingList r = skipn admitted ranked
  /\ List.length (Capacity.selectedJumpers r) = admitted
  /\ Capacity.utilizationScore r
     = JS.times (JS.div (Z.of_nat admitted) (Z.of_nat seats)) 100
  /\ (map getJumperPriority Sample.listed = [100; 100; 80; 40; 40]
      /\ optimizeCapacity 3 Sample.listed
         = Capacity.mk [Sample.t1; Sample.t2; Sample.a1]
                       [Sample.f1; Sample.f2] (JS.Finite (inject_Z 100)))
  /\ (map getJumperPriority Sample.pool = [40; 100; 80; 40; 100]
      /\ optimizeCapacity 3 Sample.pool
         = Capacity.mk [Sample.t1; Sample.t2; Sample.a1]
                       [Sample.f1; Sample.f2] (JS.Finite (inject_Z 100))).
Proof.
  cbv zeta.
  assert (Hsel : Capacity.selectedJumpers
                   (optimizeCapacity (Z.of_nat seats) pool)
                 = firstn (Nat.min seats (List.length pool))
                          (prioritizedJumpers pool)).
  { unfold optimizeCapacity. cbv zeta. cbn [Capacity.selectedJumpers].
    rewrite slice_prefix. unfold prioritizedJumpers.
    now rewrite sort_length. }
  split.
  { intros j. unfold getJumperPriority, basePriority, experienceBonus.
    cbv zeta.
    destruct (Jumper.jumpType j), (JS.truthy (Jumper.requiresInstructor j)),
      (Jumper.experienceLevel j); reflexivity. }
  split; [apply sort_perm|].
  split; [apply prioritized_sorted|].
  split; [intros p; apply prioritized_stable|].
  split; [exact Hsel|].
  split.
  { unfold optimizeCapacity. cbv zeta. cbn [Capacity.waitingList].
    rewrite slice_suffix. unfold prioritizedJumpers.
    now rewrite sort_length. }
  assert (Hlen : List.length (Capacity.selectedJumpers
                                (optimizeCapacity (Z.of_nat seats) pool))
                 = Nat.min seats (List.length pool)).
  { rewrite Hsel, length_firstn. unfold prioritizedJumpers.
    rewrite sort_length. lia. }
  split; [exact Hlen|].
  split.
  { rewrite <- Hlen. reflexivity. }
  split; split; reflexivity.
Qed.

(** C9, as the specification states it, fails on weights that are not
    whole numbers.  The four binary64 weights nearest to 203.7, 186.9,
    234.8 and 174.6 stand for numbers whose mean is exactly 200; summed
    from left to right with rounding they give 800.0000000000001, the
    quotient 200.00000000000003 is above 200 and the rule fires.  Listed
    in the reverse order the same weights sum to 800 and the rule does not
    fire. *)
Lemma fractional_mean_of_200_is_flagged :
  let weights := DoubleSample.fractional in
  (exists mean, exactMean weights = Some mean /\ (mean == inject_Z 200)%Q)
  /\ Double.heavyLoad weights = true
  /\ Double.heavyLoad (rev weights) = false.
Proof.
  cbv zeta. split; [|split; vm_compute; reflexivity].
  eexists. split; [vm_compute; reflexivity|].
  vm_compute. reflexivity.
Qed.

(** On whole weights from 150 to 250 pounds (rosters of up to two jumpers)
    and from 195 to 205 pounds (rosters of three and four), the rule on
    binary64 numbers and the rule in exact arithmetic give the same
    answer; on the empty roster both say no. *)
Example rules_agree_on_whole_weights :
  rulesAgree [] = true
  /\ forallb (fun a =>
               rulesAgree [a]
               && forallb (fun b => rulesAgree [a; b]) Sample.wholeWeights)
            Sample.wholeWeights = true
  /\ forallb (fun a =>
               forallb (fun b =>
                 forallb (fun c =>
                   rulesAgree [a; b; c]
                   && forallb (fun d => rulesAgree [a; b; c; d])
                              Sample.nearThreshold)
                   Sample.nearThreshold)
                 Sample.nearThreshold)
            Sample.nearThreshold = true.
Proof. repeat split; vm_compute; reflexivity. Qed.

(** C9, amended.  For weights that are whole numbers, where the sum is
    exact: the weight warning is pushed exactly when the roster is not
    empty and the arithmetic mean of the weights is strictly above 200; a
    mean of exactly 200 pushes nothing, and neither does the empty roster,
    whose quotient [0 / 0] is [NaN] and compares false, on the integer
    embedding and on binary64 numbers alike. *)
Theorem weight_warning_iff_mean_above_200
  (groups : list JumpGroup.t) (roster : list Jumper.t) :
  (In msgHeavyLoad (generateRecommendations groups roster)
   <-> roster <> []
       /\ (inject_Z 200 < arithmeticMean (map Jumper.weight roster))%Q)
  /\ ((arithmeticMean (map Jumper.weight roster) == inject_Z 200)%Q ->
      ~ In msgHeavyLoad (generateRecommendations groups roster))
  /\ ~ In msgHeavyLoad (generateRecommendations groups [])
  /\ ~ In msgHeavyLoad
        (OptimizedLoad.recommendations (calculateExitOrder []))
  /\ Double.heavyLoad [] = false.
Proof.
  split; [|split; [|split; [|split]]].
  - rewrite weight_warning_iff. apply avgWeight_gt_iff.
  - intros Hmean. rewrite weight_warning_iff, avgWeight_gt_iff.
    intros [_ Hlt]. rewrite Hmean in Hlt. now apply Qlt_irrefl in Hlt.
  - rewrite weight_warning_iff. discriminate.
  - cbn [calculateExitOrder OptimizedLoad.recommendations].
    rewrite weight_warning_iff. discriminate.
  - vm_compute. reflexivity.
Qed.

(** A roster of three whose weights average exactly 200 gets no weight
    warning. *)
Example mean_of_exactly_200_not_flagged :
  (arithmeticMean (map Jumper.weight Sample.mean200) == inject_Z 200)%Q
  /\ OptimizedLoad.recommendations (calculateExitOrder Sample.mean200) = [].
Proof. split; reflexivity. Qed.

Lemma sort_map_invariant {A : Type} (cmp : A -> A -> Z) (g : A -> A)
  (l : list A) :
  (forall x y, cmp (g x) (g y) = cmp x y) ->
  JS.sort cmp (map g l) = map g (JS.sort cmp l).
Proof.
  intros Hg.
  assert (Hins : forall x l', JS.insert_by cmp (g x) (map g l')
                              = map g (JS.insert_by cmp x l')).
  { intros x l'. induction l' as [|y l' IH]; cbn; [reflexivity|].
    rewrite Hg. destruct (0 <? cmp x y); cbn; [now rewrite IH|reflexivity]. }
  induction l as [|x l IH]; cbn; [reflexivity|].
  unfold JS.sort in IH. now rewrite IH, Hins.
Qed.

Lemma effectiveFallRate_dropZero (j : Jumper.t) :
  effectiveFallRate (dropZeroFallRate j) = effectiveFallRate j.
Proof.
  unfold dropZeroFallRate, effectiveFallRate.
  destruct (Jumper.fallRate j) as [[|p|p]|] eqn:E; rewrite ?E; try reflexivity.
Qed.

Lemma exitCompare_dropZero (a b : Jumper.t) :
  exitCompare (dropZeroFallRate a) (dropZeroFallRate b) = exitCompare a b.
Proof.
  unfold exitCompare, is_type.
  rewrite !effectiveFallRate_dropZero.
  unfold dropZeroFallRate.
  destruct (Jumper.fallRate a) as [[|p|p]|], (Jumper.fallRate b) as [[|q|q]|];
    reflexivity.
Qed.

Lemma getDefaultFallRate_by_name (j : Jumper.t) :
  getDefaultFallRate j
  = getDefaultFallRateOf (JumpType_string (Jumper.jumpType j))
      (ExperienceLevel_string (Jumper.experienceLevel j)).
Proof.
  unfold getDefaultFallRate, getDefaultFallRateOf.
  destruct (Jumper.jumpType j), (Jumper.experienceLevel j); reflexivity.
Qed.

Lemma exitCompare_same_key (a b : Jumper.t) :
  Jumper.jumpType b = Jumper.jumpType a ->
  Jumper.exitAltitude b = Jumper.exitAltitude a ->
  exitCompare a b = effectiveFallRate a - effectiveFallRate b.
Proof.
  intros Ht Ha. unfold exitCompare, is_type. rewrite Ht, Ha, Z.eqb_refl.
  destruct (Jumper.jumpType a); reflexivity.
Qed.

(** C10.  A jumper whose [fallRate] is present and 0 is compared by the
    default fall rate of the jump type and experience level (120, 110, 140
    or 130, 125, and 130 for any other type name), exactly as if the field
    were absent.  Against a jumper of the same type and exit altitude the
    comparator returns the difference between that default and the other
    jumper's rate, so the two of them leave with the slower first, the
    default standing for the 0; the comparator cannot tell a 0 from an
    absent rate, and neither can the exit order. *)
Theorem zero_fall_rate_uses_default
  (a other : Jumper.t) (roster : list Jumper.t) :
  Jumper.fallRate a = Some 0 ->
  effectiveFallRate a = getDefaultFallRate a
  /\ getDefaultFallRate a
     = match Jumper.jumpType a, Jumper.experienceLevel a with
       | tandem, _ => 120
       | aff, _ => 110
       | fun_jump, expert => 140
       | fun_jump, _ => 130
       | coach_jump, _ => 125
       end
  /\ effectiveFallRate a = effectiveFallRate (withoutFallRate a)
  /\ exitCompare a other = exitCompare (withoutFallRate a) other
  /\ exitCompare other a = exitCompare other (withoutFallRate a)
  /\ OptimizedLoad.exitOrder (calculateExitOrder (map dropZeroFallRate roster))
     = map dropZeroFallRate (OptimizedLoad.exitOrder (calculateExitOrder roster))
  /\ (Jumper.jumpType other = Jumper.jumpType a ->
      Jumper.exitAltitude other = Jumper.exitAltitude a ->
      exitCompare a other = getDefaultFallRate a - effectiveFallRate other
      /\ exitCompare other a = effectiveFallRate other - getDefaultFallRate a
      /\ OptimizedLoad.exitOrder (calculateExitOrder [a; other])
         = (if effectiveFallRate other <? getDefaultFallRate a
            then [other; a] else [a; other])
      /\ OptimizedLoad.exitOrder (calculateExitOrder [other; a])
         = (if getDefaultFallRate a <? effectiveFallRate other
            then [a; other] else [other; a]))
  /\ getDefaultFallRate a
     = getDefaultFallRateOf (JumpType_string (Jumper.jumpType a))
         (ExperienceLevel_string (Jumper.experienceLevel a))
  /\ (forall name level,
         name <> "tandem"%string -> name <> "aff"%string ->
         name <> "fun_jump"%string -> name <> "coach_jump"%string ->
         getDefaultFallRateOf name level = 130).
Proof.
  intros Hzero.
  assert (Hdrop : dropZeroFallRate a = withoutFallRate a).
  { unfold dropZeroFallRate. now rewrite Hzero. }
  assert (Heff : effectiveFallRate a = effectiveFallRate (withoutFallRate a)).
  { now rewrite <- Hdrop, effectiveFallRate_dropZero. }
  assert (Hdef : effectiveFallRate a = getDefaultFallRate a).
  { unfold effectiveFallRate. now rewrite Hzero. }
  split; [exact Hdef|].
  split.
  { unfold getDefaultFallRate.
    destruct (Jumper.jumpType a), (Jumper.experienceLevel a); reflexivity. }
  split; [exact Heff|].
  split; [unfold exitCompare, is_type; now rewrite Heff|].
  split; [unfold exitCompare, is_type; now rewrite Heff|].
  split.
  { cbn [calculateExitOrder OptimizedLoad.exitOrder].
    apply sort_map_invariant, exitCompare_dropZero. }
  split.
  { intros Ht Ha.
    assert (Hab : exitCompare a other
                  = getDefaultFallRate a - effectiveFallRate other)
      by (rewrite (exitCompare_same_key a other Ht Ha); now rewrite Hdef).
    assert (Hba : exitCompare other a
                  = effectiveFallRate other - getDefaultFallRate a)
      by (rewrite (exitCompare_same_key other a (eq_sym Ht) (eq_sym Ha));
          now rewrite Hdef).
    split; [exact Hab|]. split; [exact Hba|].
    cbn [calculateExitOrder OptimizedLoad.exitOrder JS.sort fold_right
         JS.insert_by].
    rewrite Hab, Hba. split.
    - destruct (Z.ltb_spec 0 (getDefaultFallRate a - effectiveFallRate other)),
        (Z.ltb_spec (effectiveFallRate other) (getDefaultFallRate a));
        try reflexivity; lia.
    - destruct (Z.ltb_spec 0 (effectiveFallRate other - getDefaultFallRate a)),
        (Z.ltb_spec (getDefaultFallRate a) (effectiveFallRate other));
        try reflexivity; lia. }
  split; [apply getDefaultFallRate_by_name|].
  intros name level H1 H2 H3 H4. unfold getDefaultFallRateOf.
  apply String.eqb_neq in H1, H2, H3, H4. now rewrite H1, H2, H3, H4.
Qed.

(** The statement above at an expert fun jumper who supplies a fall rate
    of 0, next to one of the same type and altitude who supplies 100: the
    rate used for the first is the default, 140, and so that jumper leaves
    second.  Had the 0 been used as it stands, the order would be the
    other way round. *)
Lemma zero_fall_rate_uses_default_witness :
  Jumper.fallRate Sample.zeroRate = Some 0
  /\ effectiveFallRate Sample.zeroRate = getDefaultFallRate Sample.zeroRate
  /\ getDefaultFallRate Sample.zeroRate = 140
  /\ exitCompare Sample.zeroRate Sample.slowFun = 140 - 100
  /\ OptimizedLoad.exitOrder
       (calculateExitOrder [Sample.zeroRate; Sample.slowFun])
     = [Sample.slowFun; Sample.zeroRate].
Proof.
  pose proof (zero_fall_rate_uses_default
                Sample.zeroRate Sample.slowFun [Sample.zeroRate] eq_refl)
    as (Hdef & _ & _ & _ & _ & _ & Hpair & _).
  destruct (Hpair eq_refl eq_refl) as (Hcmp & _ & Horder & _).
  split; [reflexivity|]. split; [exact Hdef|]. split; [reflexivity|].
  split; [exact Hcmp|exact Horder].
Defined.

(* ================================================================== *)
(** ** Further properties of the engine *)
(* ================================================================== *)

Lemma flushGroup_behind (gs : list JumpGroup.t) (cg : list Jumper.t)
  (alt : Z) (ty : string) :
  flushGroup (mkLoop gs cg alt ty) = gs ++ flushGroup (mkLoop [] cg alt ty).
Proof.
  unfold flushGroup. cbn [groups currentGroup currentAltitude currentType].
  destruct (0 <? List.length cg)%nat; [reflexivity|now rewrite app_nil_r].
Qed.

Lemma groupStep_behind (gs : list JumpGroup.t) (cg : list Jumper.t)
  (alt : Z) (ty : string) (j : Jumper.t) :
  groupStep (mkLoop gs cg alt ty) j
  = let st := groupStep (mkLoop [] cg alt ty) j in
    mkLoop (gs ++ groups st) (currentGroup st) (currentAltitude st)
           (currentType st).
Proof.
  unfold groupStep. cbn [groups currentGroup currentAltitude currentType].
  destruct (negb _ || _); cbv zeta;
    cbn [groups currentGroup currentAltitude currentType].
  - now rewrite flushGroup_behind.
  - now rewrite app_nil_r.
Qed.

Lemma loop_remaining (l : list Jumper.t) :
  forall gs cg alt ty,
    flushGroup (fold_left groupStep l (mkLoop gs cg alt ty))
    = gs ++ remainingGroups cg alt ty l.
Proof.
  induction l as [|j l IH]; intros gs cg alt ty.
  - cbn [fold_left remainingGroups]. apply flushGroup_behind.
  - cbn [fold_left remainingGroups]. rewrite groupStep_behind.
    cbv zeta. rewrite IH. now rewrite app_assoc.
Qed.

Lemma createJumpGroups_remaining (l : list Jumper.t) :
  createJumpGroups l = remainingGroups [] 0 EmptyString l.
Proof. unfold createJumpGroups. now rewrite loop_remaining. Qed.

Lemma filling_start (j : Jumper.t) :
  filling [j] (Jumper.exitAltitude j) (groupKey j).
Proof.
  repeat split.
  - cbn. lia.
  - now repeat constructor.
  - discriminate.
Qed.

Lemma filling_extend (cg : list Jumper.t) (alt : Z) (j : Jumper.t) :
  filling cg alt (groupKey j) ->
  (List.length cg < 8)%nat ->
  filling (cg ++ [j]) alt (groupKey j).
Proof.
  intros (Hlen & Hall & Hempty) Hroom. repeat split.
  - rewrite length_app. cbn. lia.
  - apply Forall_app. split; [exact Hall|].
    constructor; [|constructor]. split; [reflexivity|].
    destruct cg as [|j0 cg].
    + exfalso. now apply (groupKey_nonempty j), Hempty.
    + inversion Hall as [|? ? [Hk Ha] _]; subst.
      now destruct (groupKey_inj j0 j Hk) as [_ <-].
  - intros H. now apply app_eq_nil in H as [_ H].
Qed.

Lemma flushed_describes (cg : list Jumper.t) (alt : Z) (ty : string) :
  filling cg alt ty ->
  Forall describesMembers (flushGroup (mkLoop [] cg alt ty)).
Proof.
  intros (_ & Hall & _). unfold flushGroup.
  cbn [groups currentGroup currentAltitude currentType].
  destruct cg as [|j cg]; cbn [List.length Nat.ltb Nat.leb app].
  - constructor.
  - constructor; [|constructor]. unfold describesMembers.
    cbn [JumpGroup.jumpers JumpGroup.groupType JumpGroup.exitAltitude
         JumpGroup.estimatedTime].
    split; [discriminate|]. split; [exact Hall|].
    unfold calculateGroupTime. cbv zeta. lia.
Qed.

Lemma flushGroup_cases (cg : list Jumper.t) (alt : Z) (ty : string) :
  flushGroup (mkLoop [] cg alt ty)
  = match cg with
    | [] => []
    | _ :: _ => [JumpGroup.mk cg alt ty (calculateGroupTime cg)]
    end.
Proof. now destruct cg. Qed.

(** The groups still to be pushed describe their members, end only at a
    change of key or at the cap, and begin with the group being filled. *)
Lemma remainingGroups_spec (l : list Jumper.t) :
  forall cg alt ty,
    filling cg alt ty ->
    Forall describesMembers (remainingGroups cg alt ty l)
    /\ Sorted boundary (remainingGroups cg alt ty l)
    /\ (cg <> [] ->
        exists g rest,
          remainingGroups cg alt ty l = g :: rest
          /\ JumpGroup.groupType g = ty).
Proof.
  induction l as [|j l IH]; intros cg alt ty Hfill.
  - cbn [remainingGroups]. split; [now apply flushed_describes|].
    rewrite flushGroup_cases. destruct cg as [|j0 cg].
    + split; [constructor|]. intros H. now elim H.
    + split; [repeat constructor|]. intros _. eauto.
  - cbn [remainingGroups]. unfold groupStep.
    cbn [groups currentGroup currentAltitude currentType].
    destruct (negb (String.eqb ty (groupKey j))
              || (8 <=? List.length cg)%nat) eqn:Enew; cbv zeta;
      cbn [groups currentGroup currentAltitude currentType].
    + destruct (IH [j] (Jumper.exitAltitude j) (groupKey j)
                   (filling_start j)) as (Hdesc & Hsorted & Hhead).
      destruct Hhead as (g' & rest' & Eq & Hty'); [discriminate|].
      pose proof (flushed_describes cg alt ty Hfill) as Hflush.
      split; [apply Forall_app; now split|].
      rewrite flushGroup_cases. destruct cg as [|j0 cg]; cbn [app].
      * split; [exact Hsorted|]. intros H. now elim H.
      * split.
        -- constructor; [exact Hsorted|]. rewrite Eq. constructor.
           unfold boundary. cbn [JumpGroup.groupType JumpGroup.jumpers].
           rewrite Hty'.
           apply orb_true_iff in Enew as [Ekey|Ecap].
           ++ left. apply negb_true_iff, String.eqb_neq in Ekey. exact Ekey.
           ++ right. apply Nat.leb_le in Ecap.
              destruct Hfill as (Hlen & _). lia.
        -- intros _. eexists. eexists. split; reflexivity.
    + apply orb_false_iff in Enew as [Ekey Ecap].
      apply negb_false_iff, String.eqb_eq in Ekey. subst ty.
      apply Nat.leb_gt in Ecap.
      destruct (IH (cg ++ [j]) alt (groupKey j)
                   (filling_extend cg alt j Hfill Ecap))
        as (Hdesc & Hsorted & Hhead).
      cbn [app]. split; [exact Hdesc|]. split; [exact Hsorted|].
      intros _. apply Hhead.
      intros H. now apply app_eq_nil in H as [_ H].
Qed.

Lemma groupTimes_sum (gs : list JumpGroup.t) (acc : Z) :
  Forall describesMembers gs ->
  fold_left (fun total group => total + JumpGroup.estimatedTime group) gs acc
  = acc + 50 * Z.of_nat (List.length gs)
    + 10 * Z.of_nat (List.length (List.concat (map JumpGroup.jumpers gs))).
Proof.
  intros H. revert acc.
  induction H as [|g gs (_ & _ & Htime) _ IH]; intros acc.
  - cbn. lia.
  - cbn [fold_left map List.concat]. rewrite IH, Htime, length_app.
    cbn [List.length]. lia.
Qed.

Lemma StronglySorted_both {A : Type} (R R' : A -> A -> Prop) (l : list A) :
  StronglySorted R l -> StronglySorted R' l ->
  StronglySorted (fun x y => R x y /\ R' x y) l.
Proof.
  induction 1 as [|x l Hl IH Hx]; intros H'; [constructor|].
  inversion H' as [|? ? Hl' Hx']; subst.
  constructor; [auto|].
  rewrite Forall_forall in *. auto.
Qed.

Lemma exit_order_students_before_rest (roster : list Jumper.t) :
  StronglySorted
    (class_order (fun j => is_type tandem j || is_type aff j)
                 (fun _ _ => True))
    (JS.sort exitCompare roster).
Proof.
  apply sort_ordered; try (intros; exact I);
    intros a b; by_jump_types a b.
Qed.

(** Rules 1 and 2 of the sorter: the exit order goes through the jump
    types in the order tandem, AFF, then fun and coach jumps. *)
Theorem exit_order_by_type_rank (roster : list Jumper.t) :
  StronglySorted
    (fun a b => typeRank (Jumper.jumpType a) <= typeRank (Jumper.jumpType b))
    (OptimizedLoad.exitOrder (calculateExitOrder roster)).
Proof.
  cbn [calculateExitOrder OptimizedLoad.exitOrder].
  eapply StronglySorted_weaken;
    [|apply StronglySorted_both;
      [apply exit_order_class_order
      |apply exit_order_students_before_rest]].
  unfold class_order, is_type. intros a b ([Ht _] & [Hs _]).
  destruct (Jumper.jumpType a), (Jumper.jumpType b);
    cbn in *; try lia; try (specialize (Ht eq_refl); discriminate);
    specialize (Hs eq_refl); discriminate.
Qed.

(** Each group records its members' key and altitude and the time
    [60 + 10 * (size - 1)]; a group ends only where the key changes or
    where it holds 8 jumpers.  For any sequence handed to the assembler,
    and so for the groups of every roster. *)
Theorem groups_are_maximal_runs (jumpers roster : list Jumper.t) :
  (Forall describesMembers (createJumpGroups jumpers)
   /\ Sorted boundary (createJumpGroups jumpers))
  /\ (Forall describesMembers
             (OptimizedLoad.groups (calculateExitOrder roster))
      /\ Sorted boundary (OptimizedLoad.groups (calculateExitOrder roster))).
Proof.
  assert (H : forall l, Forall describesMembers (createJumpGroups l)
                        /\ Sorted boundary (createJumpGroups l)).
  { intros l. rewrite createJumpGroups_remaining.
    destruct (remainingGroups_spec l [] 0 EmptyString) as (Hd & Hs & _).
    - repeat split; [cbn; lia|constructor].
    - now split. }
  split; apply H.
Qed.

(** The total time of a load with [n] jumpers in [k] groups is
    [1170 + 80 * k + 10 * n] seconds: the climb, 60 seconds for each group
    and 10 for each further member, 30 for each change of group, and the
    30 seconds the transition term takes off whatever the roster. *)
Theorem total_time_closed_form (roster : list Jumper.t) :
  let load := calculateExitOrder roster in
  OptimizedLoad.totalTime load
  = 1170 + 80 * Z.of_nat (List.length (OptimizedLoad.groups load))
    + 10 * Z.of_nat (List.length roster).
Proof.
  cbv zeta. cbn [calculateExitOrder OptimizedLoad.totalTime
                 OptimizedLoad.groups].
  unfold calculateTotalTime. cbv zeta.
  rewrite groupTimes_sum.
  - rewrite createJumpGroups_concat, sort_length. lia.
  - rewrite createJumpGroups_remaining.
    apply (remainingGroups_spec _ [] 0 EmptyString).
    repeat split; [cbn; lia|constructor].
Qed.

(** The three composition rules of the recommendation generator: more
    than 6 tandems, more than 4 AFF students, more than 5 groups. *)
Theorem composition_warnings
  (groups : list JumpGroup.t) (allJumpers : list Jumper.t) :
  (In msgSplitTandems (generateRecommendations groups allJumpers)
   <-> (6 < List.length (filter (is_type tandem) allJumpers))%nat)
  /\ (In msgAffCoverage (generateRecommendations groups allJumpers)
      <-> (4 < List.length (filter (is_type aff) allJumpers))%nat)
  /\ (In msgConsolidate (generateRecommendations groups allJumpers)
      <-> (5 < List.length groups)%nat).
Proof.
  unfold generateRecommendations. cbv zeta.
  rewrite !In_pushIf, !Nat.ltb_lt. cbn [In].
  repeat split; intuition discriminate.
Qed.

(** Three tandems and two fun jumpers, all at 14000 ft with default fall
    rates, entered fun jumper first: the tandems leave first, in their
    input order, then the fun jumpers in theirs. *)
Example tandems_before_fun_jumpers :
  OptimizedLoad.exitOrder
    (calculateExitOrder
       [Sample.f1; Sample.t1; Sample.highTandem; Sample.f2; Sample.t2])
  = [Sample.t1; Sample.highTandem; Sample.t2; Sample.f1; Sample.f2].
Proof. reflexivity. Qed.

(** Seven tandems draw the split-tandems warning, six do not. *)
Example seven_tandems_flagged :
  OptimizedLoad.recommendations (calculateExitOrder (repeat Sample.t1 7))
  = [msgSplitTandems]
  /\ OptimizedLoad.recommendations (calculateExitOrder (repeat Sample.t1 6))
     = [].
Proof. split; reflexivity. Qed.

(* ================================================================== *)
(** ** Further properties: the exit-order sorter *)
(* ================================================================== *)

(** Sorting a list whose elements all satisfy [P], with a comparator that
    is the sign of a transitive relation on such elements. *)
Section SortedOn.

Context {A : Type} (cmp : A -> A -> Z) (P : A -> Prop) (le : A -> A -> Prop).
Hypothesis stays : forall x y, P x -> P y -> cmp x y <= 0 -> le x y.
Hypothesis moves : forall x y, P x -> P y -> 0 < cmp x y -> le y x.
Hypothesis le_trans :
  forall x y z, P x -> P y -> P z -> le x y -> le y z -> le x z.

Lemma insert_by_sorted_on (x : A) (l : list A) :
  P x -> Forall P l -> StronglySorted le l ->
  StronglySorted le (JS.insert_by cmp x l).
Proof.
  intros Px Pl Hs. induction Hs as [|y l Hl IH Hy]; cbn [JS.insert_by].
  - repeat constructor.
  - inversion Pl as [|? ? Py Pl']; subst.
    destruct (0 <? cmp x y) eqn:E.
    + apply Z.ltb_lt in E. constructor; [now apply IH|].
      eapply Permutation_Forall; [apply insert_by_perm|].
      constructor; [now apply moves|exact Hy].
    + apply Z.ltb_ge in E.
      assert (Hxy : le x y) by now apply stays.
      constructor; [now constructor|].
      constructor; [exact Hxy|].
      rewrite Forall_forall in Hy, Pl' |- *. intros z Hz.
      apply le_trans with y; auto.
Qed.

Lemma sort_sorted_on (l : list A) :
  Forall P l -> StronglySorted le (JS.sort cmp l).
Proof.
  induction 1 as [|x l Px Pl IH]; cbn [JS.sort fold_right].
  - constructor.
  - apply insert_by_sorted_on; [exact Px| |exact IH].
    eapply Permutation_Forall; [apply sort_perm|exact Pl].
Qed.

(** A list already in order is left as it is. *)
Lemma sort_sorted_id (l : list A) :
  StronglySorted (fun x y => cmp x y <= 0) l -> JS.sort cmp l = l.
Proof.
  induction 1 as [|x l Hl IH Hx]; [reflexivity|].
  cbn [JS.sort fold_right]. unfold JS.sort in IH. rewrite IH.
  destruct l as [|y l]; [reflexivity|]. cbn [JS.insert_by].
  inversion Hx as [|? ? Hxy _]; subst.
  destruct (Z.ltb_spec 0 (cmp x y)); [lia|reflexivity].
Qed.

End SortedOn.

Lemma StronglySorted_app_cross {A : Type} (R : A -> A -> Prop)
  (l1 l2 : list A) :
  StronglySorted R (l1 ++ l2) ->
  forall a b, In a l1 -> In b l2 -> R a b.
Proof.
  induction l1 as [|x l1 IH]; intros Hs a b Ha Hb; [destruct Ha|].
  cbn in Hs. inversion Hs as [|? ? Hl Hx]; subst.
  destruct Ha as [<-|Ha].
  - rewrite Forall_forall in Hx. apply Hx, in_or_app. now right.
  - now apply IH.
Qed.

Lemma exitCompare_tied_at (t : JumpType) (alt rate : Z) (a b : Jumper.t) :
  jumperAt t alt rate a = true -> jumperAt t alt rate b = true ->
  exitCompare a b <= 0.
Proof.
  unfold jumperAt. rewrite !andb_true_iff, !Z.eqb_eq.
  intros ((Ta & Ha) & Ra) ((Tb & Hb) & Rb). revert Ta Tb.
  unfold exitCompare, is_type.
  destruct t, (Jumper.jumpType a), (Jumper.jumpType b);
    cbn [JumpType_eqb andb negb]; try discriminate; intros _ _;
    destruct (Z.eqb_spec (Jumper.exitAltitude a) (Jumper.exitAltitude b));
    cbn [negb]; lia.
Qed.

Lemma exitRankOrder_trans (a b c : Jumper.t) :
  exitRankOrder a b -> exitRankOrder b c -> exitRankOrder a c.
Proof. unfold exitRankOrder, exitsNoLater. lia. Qed.

Lemma exit_order_rank_sorted (roster : list Jumper.t) :
  StronglySorted exitRankOrder (JS.sort exitCompare roster).
Proof.
  apply (sort_sorted_on exitCompare (fun _ => True)).
  - intros a b _ _. unfold exitRankOrder, exitCompare, is_type.
    destruct (Jumper.jumpType a), (Jumper.jumpType b);
      cbn [JumpType_eqb andb negb typeRank]; try lia;
      destruct (Z.eqb_spec (Jumper.exitAltitude a) (Jumper.exitAltitude b));
      cbn [negb]; unfold exitsNoLater; lia.
  - intros a b _ _. unfold exitRankOrder, exitCompare, is_type.
    destruct (Jumper.jumpType a), (Jumper.jumpType b);
      cbn [JumpType_eqb andb negb typeRank]; try lia;
      destruct (Z.eqb_spec (Jumper.exitAltitude a) (Jumper.exitAltitude b));
      cbn [negb]; unfold exitsNoLater; lia.
  - intros a b c _ _ _. apply exitRankOrder_trans.
  - rewrite Forall_forall. auto.
Qed.

(** Rules 3 and 4 among the AFF students.  In the exit order the AFF
    students stand by descending exit altitude, then by ascending fall
    rate; AFF students with the same altitude and the same fall rate keep
    their input order. *)
Theorem aff_students_by_altitude_then_rate (roster : list Jumper.t) :
  let out := OptimizedLoad.exitOrder (calculateExitOrder roster) in
  (forall i j a b,
      (i < j)%nat ->
      nth_error out i = Some a -> nth_error out j = Some b ->
      is_type aff a = true -> is_type aff b = true -> exitsNoLater a b)
  /\ (forall alt rate,
         filter (jumperAt aff alt rate) out
         = filter (jumperAt aff alt rate) roster).
Proof.
  cbv zeta. cbn [calculateExitOrder OptimizedLoad.exitOrder]. split.
  - intros i j a b L Ha Hb Ta Tb.
    pose proof (StronglySorted_nth_error _ _ (exit_order_rank_sorted roster)
                  i j a b L Ha Hb) as H.
    revert Ta Tb H. unfold is_type, exitRankOrder.
    destruct (Jumper.jumpType a), (Jumper.jumpType b);
      cbn [JumpType_eqb typeRank]; try discriminate.
    intros _ _ [H|[_ [H|H]]]; [lia|lia|exact H].
  - intros alt rate. apply sort_stable. apply exitCompare_tied_at.
Qed.

Lemma exitKeyOrder_trans (a b c : Jumper.t) :
  exitKeyOrder a b -> exitKeyOrder b c -> exitKeyOrder a c.
Proof.
  unfold exitKeyOrder, exitsNoLater.
  intros [H1|[E1 H1]] [H2|[E2 H2]].
  - left. lia.
  - left. rewrite <- E2. exact H1.
  - left. rewrite E1. exact H2.
  - right. split; [congruence|lia].
Qed.

Lemma exitCompare_key_order (avoided : JumpType) (a b : Jumper.t) :
  avoided = coach_jump \/ avoided = fun_jump ->
  Jumper.jumpType a <> avoided -> Jumper.jumpType b <> avoided ->
  (exitCompare a b <= 0 -> exitKeyOrder a b)
  /\ (0 < exitCompare a b -> exitKeyOrder b a).
Proof.
  intros Hav Ha Hb. unfold exitKeyOrder, exitCompare, is_type.
  destruct Hav as [-> | ->];
    destruct (Jumper.jumpType a), (Jumper.jumpType b);
    try (now elim Ha); try (now elim Hb);
    cbn [JumpType_eqb andb negb typeRank];
    try (split; intros; lia);
    destruct (Z.eqb_spec (Jumper.exitAltitude a) (Jumper.exitAltitude b));
    cbn [negb]; unfold exitsNoLater;
    split; intros; right; (split; [reflexivity|lia]).
Qed.

Lemma unmixed_key_sorted (roster : list Jumper.t) :
  unmixed roster ->
  StronglySorted exitKeyOrder (JS.sort exitCompare roster).
Proof.
  intros [H|H].
  - apply (sort_sorted_on exitCompare
             (fun j => Jumper.jumpType j <> coach_jump)).
    + intros a b Pa Pb.
      apply (exitCompare_key_order coach_jump a b); auto.
    + intros a b Pa Pb.
      apply (exitCompare_key_order coach_jump a b); auto.
    + intros a b c _ _ _. apply exitKeyOrder_trans.
    + exact H.
  - apply (sort_sorted_on exitCompare
             (fun j => Jumper.jumpType j <> fun_jump)).
    + intros a b Pa Pb.
      apply (exitCompare_key_order fun_jump a b); auto.
    + intros a b Pa Pb.
      apply (exitCompare_key_order fun_jump a b); auto.
    + intros a b c _ _ _. apply exitKeyOrder_trans.
    + exact H.
Qed.

(** On a roster where fun jumps and coach jumps do not meet, the comparator
    is the sign of one order, and the exit order is sorted by it: type
    rank, then descending exit altitude, then ascending fall rate. *)
Theorem unmixed_roster_fully_sorted (roster : list Jumper.t) :
  unmixed roster ->
  StronglySorted exitKeyOrder
                 (OptimizedLoad.exitOrder (calculateExitOrder roster)).
Proof.
  cbn [calculateExitOrder OptimizedLoad.exitOrder].
  apply unmixed_key_sorted.
Qed.

Lemma jumperAt_iff (t : JumpType) (alt rate : Z) (j : Jumper.t) :
  jumperAt t alt rate j = true
  <-> Jumper.jumpType j = t /\ Jumper.exitAltitude j = alt
      /\ effectiveFallRate j = rate.
Proof.
  unfold jumperAt, is_type. rewrite !andb_true_iff, !Z.eqb_eq.
  destruct (Jumper.jumpType j), t; cbn [JumpType_eqb];
    intuition (try discriminate; auto).
Qed.

Lemma jumperAt_self (j : Jumper.t) :
  jumperAt (Jumper.jumpType j) (Jumper.exitAltitude j) (effectiveFallRate j) j
  = true.
Proof. now apply jumperAt_iff. Qed.

Lemma exitKeyOrder_antisym (a b : Jumper.t) :
  exitKeyOrder a b -> exitKeyOrder b a ->
  jumperAt (Jumper.jumpType a) (Jumper.exitAltitude a) (effectiveFallRate a) b
  = true.
Proof.
  unfold exitKeyOrder, exitsNoLater. intros H1 H2. apply jumperAt_iff.
  destruct H1 as [H1|[E1 H1]], H2 as [H2|[E2 H2]];
    try lia; try (rewrite E1 in *; lia); try (rewrite E2 in *; lia).
  repeat split; [congruence|lia|lia].
Qed.

(** Two lists in key order whose ties stand alike are the same list. *)
Lemma key_sorted_stable_unique (l1 : list Jumper.t) :
  forall l2,
    StronglySorted exitKeyOrder l1 -> StronglySorted exitKeyOrder l2 ->
    (forall t alt rate,
        filter (jumperAt t alt rate) l1 = filter (jumperAt t alt rate) l2) ->
    l1 = l2.
Proof.
  induction l1 as [|x l1 IH]; intros l2 S1 S2 Hf.
  - destruct l2 as [|y l2]; [reflexivity|].
    specialize (Hf (Jumper.jumpType y) (Jumper.exitAltitude y)
                   (effectiveFallRate y)).
    cbn [filter] in Hf. rewrite jumperAt_self in Hf. discriminate.
  - destruct l2 as [|y l2].
    { specialize (Hf (Jumper.jumpType x) (Jumper.exitAltitude x)
                     (effectiveFallRate x)).
      cbn [filter] in Hf. rewrite jumperAt_self in Hf. discriminate. }
    inversion S1 as [|? ? S1' Hx]; subst.
    inversion S2 as [|? ? S2' Hy]; subst.
    assert (Hclass : jumperAt (Jumper.jumpType x) (Jumper.exitAltitude x)
                              (effectiveFallRate x) y = true).
    { destruct (jumperAt (Jumper.jumpType x) (Jumper.exitAltitude x)
                         (effectiveFallRate x) y) eqn:E; [reflexivity|].
      exfalso.
      pose proof (Hf (Jumper.jumpType x) (Jumper.exitAltitude x)
                     (effectiveFallRate x)) as Hfx.
      cbn [filter] in Hfx. rewrite jumperAt_self, E in Hfx.
      assert (Hin : In x l2).
      { apply (filter_In (jumperAt (Jumper.jumpType x) (Jumper.exitAltitude x)
                                   (effectiveFallRate x))).
        rewrite <- Hfx. now left. }
      pose proof (Hf (Jumper.jumpType y) (Jumper.exitAltitude y)
                     (effectiveFallRate y)) as Hfy.
      cbn [filter] in Hfy. rewrite jumperAt_self in Hfy.
      destruct (jumperAt (Jumper.jumpType y) (Jumper.exitAltitude y)
                         (effectiveFallRate y) x) eqn:E'.
      - apply jumperAt_iff in E' as (T & Al & R).
        assert (jumperAt (Jumper.jumpType x) (Jumper.exitAltitude x)
                         (effectiveFallRate x) y = true)
          by (apply jumperAt_iff; auto).
        congruence.
      - assert (Hin' : In y l1).
        { apply (filter_In (jumperAt (Jumper.jumpType y)
                                     (Jumper.exitAltitude y)
                                     (effectiveFallRate y))).
          rewrite Hfy. now left. }
        rewrite Forall_forall in Hx, Hy.
        pose proof (exitKeyOrder_antisym x y (Hx y Hin') (Hy x Hin)).
        congruence. }
    assert (x = y).
    { specialize (Hf (Jumper.jumpType x) (Jumper.exitAltitude x)
                     (effectiveFallRate x)).
      cbn [filter] in Hf. rewrite jumperAt_self, Hclass in Hf.
      now injection Hf. }
    subst y. f_equal. apply IH; auto.
    intros t alt rate. specialize (Hf t alt rate). cbn [filter] in Hf.
    destruct (jumperAt t alt rate x); [now injection Hf|exact Hf].
Qed.

(** On a roster where fun jumps and coach jumps do not meet, any list in
    key order whose ties stand as in the roster is the exit order: the
    result does not depend on how the runtime sorts, as long as the sort
    is stable. *)
Theorem unmixed_exit_order_is_unique (roster out : list Jumper.t) :
  unmixed roster ->
  StronglySorted exitKeyOrder out ->
  (forall t alt rate,
      filter (jumperAt t alt rate) out
      = filter (jumperAt t alt rate) roster) ->
  out = OptimizedLoad.exitOrder (calculateExitOrder roster).
Proof.
  intros Hun Hs Hf. apply key_sorted_stable_unique; [exact Hs| |].
  - cbn [calculateExitOrder OptimizedLoad.exitOrder].
    now apply unmixed_key_sorted.
  - intros t alt rate. rewrite Hf.
    cbn [calculateExitOrder OptimizedLoad.exitOrder].
    symmetry. apply sort_stable, exitCompare_tied_at.
Qed.

(* ================================================================== *)
(** ** Further properties: the capacity allocator *)
(* ================================================================== *)

Lemma clamp_index_range (len i : Z) :
  0 <= len -> 0 <= JS.clamp_index len i <= len.
Proof. unfold JS.clamp_index. destruct (Z.ltb_spec i 0); lia. Qed.

Lemma slice_head (A : Type) (l : list A) (seats : Z) :
  JS.slice l 0 (Some seats)
  = firstn (Z.to_nat (JS.clamp_index (Z.of_nat (List.length l)) seats)) l.
Proof.
  unfold JS.slice. cbv zeta.
  replace (JS.clamp_index (Z.of_nat (List.length l)) 0) with 0
    by (unfold JS.clamp_index; cbn [Z.ltb Z.compare]; lia).
  cbn [Z.to_nat skipn]. now rewrite Z.sub_0_r.
Qed.

Lemma slice_tail (A : Type) (l : list A) (seats : Z) :
  JS.slice l seats None
  = skipn (Z.to_nat (JS.clamp_index (Z.of_nat (List.length l)) seats)) l.
Proof.
  unfold JS.slice. cbv zeta.
  pose proof (clamp_index_range (Z.of_nat (List.length l)) seats) as H.
  apply firstn_all2. rewrite length_skipn. lia.
Qed.

(** The allocator only looks at the ranking of the pool. *)
Lemma optimizeCapacity_of_ranking (seats : Z) (pool pool' : list Jumper.t) :
  prioritizedJumpers pool' = prioritizedJumpers pool ->
  optimizeCapacity seats pool' = optimizeCapacity seats pool.
Proof. unfold optimizeCapacity. cbv zeta. now intros ->. Qed.

Lemma capacity_split (seats : Z) (pool : list Jumper.t) :
  Capacity.selectedJumpers (optimizeCapacity seats pool)
  ++ Capacity.waitingList (optimizeCapacity seats pool)
  = prioritizedJumpers pool.
Proof.
  unfold optimizeCapacity. cbv zeta.
  cbn [Capacity.selectedJumpers Capacity.waitingList].
  rewrite slice_head, slice_tail. apply firstn_skipn.
Qed.

Lemma prioritized_idempotent (pool : list Jumper.t) :
  prioritizedJumpers (prioritizedJumpers pool) = prioritizedJumpers pool.
Proof.
  unfold prioritizedJumpers at 1. apply sort_sorted_id.
  eapply StronglySorted_weaken; [|apply prioritized_sorted].
  unfold priorityCompare. cbv zeta. intros. lia.
Qed.

(** Whatever the seat count, zero and negative ones included, the admitted
    candidates followed by the waiting list are exactly the ranking of the
    pool: nobody is lost, nobody appears twice. *)
Theorem capacity_loses_nobody (availableSlots : Z) (pool : list Jumper.t) :
  let r := optimizeCapacity availableSlots pool in
  Capacity.selectedJumpers r ++ Capacity.waitingList r
  = prioritizedJumpers pool
  /\ Permutation pool (Capacity.selectedJumpers r ++ Capacity.waitingList r).
Proof.
  cbv zeta. rewrite capacity_split. split; [reflexivity|apply sort_perm].
Qed.

(** No candidate on the waiting list has a higher priority than an admitted
    one, whatever the seat count. *)
Theorem capacity_admits_highest (availableSlots : Z) (pool : list Jumper.t) :
  let r := optimizeCapacity availableSlots pool in
  Forall (fun admitted =>
            Forall (fun waiting =>
                      getJumperPriority waiting <= getJumperPriority admitted)
                   (Capacity.waitingList r))
         (Capacity.selectedJumpers r).
Proof.
  cbv zeta. rewrite Forall_forall. intros a Ha.
  rewrite Forall_forall. intros b Hb.
  pose proof (prioritized_sorted pool) as Hs.
  rewrite <- (capacity_split availableSlots pool) in Hs.
  exact (StronglySorted_app_cross _ _ _ Hs a b Ha Hb).
Qed.

(** Allocating again from the outcome of an allocation changes nothing:
    the ranking of a ranking is itself, and the admitted candidates followed
    by the waiting list give back the same result for the same seats. *)
Theorem capacity_allocation_is_stable (availableSlots : Z)
  (pool : list Jumper.t) :
  let r := optimizeCapacity availableSlots pool in
  prioritizedJumpers (prioritizedJumpers pool) = prioritizedJumpers pool
  /\ optimizeCapacity availableSlots
       (Capacity.selectedJumpers r ++ Capacity.waitingList r)
     = r.
Proof.
  cbv zeta. split; [apply prioritized_idempotent|].
  apply optimizeCapacity_of_ranking.
  rewrite capacity_split. apply prioritized_idempotent.
Qed.

Lemma times_div_pos (a k : Z) (p : positive) :
  numberIs (JS.times (JS.div a (Z.pos p)) k) (a * k # p).
Proof.
  unfold numberIs, JS.times, JS.div. cbn [Z.eqb].
  eexists. split; [reflexivity|].
  rewrite Qred_correct, Qred_correct, quotient_as_fraction.
  unfold Qeq, Qmult, inject_Z. cbn. lia.
Qed.

Lemma times_div_neg (a k : Z) (p : positive) :
  numberIs (JS.times (JS.div a (Z.neg p)) k) (- (a * k) # p).
Proof.
  unfold numberIs, JS.times, JS.div. cbn [Z.eqb].
  eexists. split; [reflexivity|].
  rewrite Qred_correct, Qred_correct.
  unfold Qdiv, inject_Z. rewrite Qinv_neg.
  unfold Qeq, Qmult. cbn. lia.
Qed.

Lemma selected_length (seats : nat) (pool : list Jumper.t) :
  List.length (Capacity.selectedJumpers
                 (optimizeCapacity (Z.of_nat seats) pool))
  = Nat.min seats (List.length pool).
Proof.
  unfold optimizeCapacity. cbv zeta. cbn [Capacity.selectedJumpers].
  rewrite slice_prefix, length_firstn. unfold prioritizedJumpers.
  rewrite sort_length. lia.
Qed.

(** With at least one seat the score is a percentage: a finite number
    between 0 and 100, equal to 100 exactly when the pool fills every
    seat. *)
Theorem utilization_is_a_percentage (availableSlots : Z)
  (pool : list Jumper.t) :
  0 < availableSlots ->
  exists q,
    Capacity.utilizationScore (optimizeCapacity availableSlots pool)
    = JS.Finite q
    /\ (0 <= q)%Q /\ (q <= inject_Z 100)%Q
    /\ ((q == inject_Z 100)%Q
        <-> availableSlots <= Z.of_nat (List.length pool)).
Proof.
  intros Hpos.
  destruct availableSlots as [|p|p]; try lia.
  pose proof (selected_length (Pos.to_nat p) pool) as Hlen.
  rewrite positive_nat_Z in Hlen.
  unfold optimizeCapacity in *. cbv zeta in *.
  cbn [Capacity.utilizationScore Capacity.selectedJumpers] in *.
  rewrite Hlen.
  destruct (times_div_pos
              (Z.of_nat (Nat.min (Pos.to_nat p) (List.length pool))) 100 p)
    as (q & Hq & Hval).
  exists q. split; [exact Hq|]. rewrite Hval.
  unfold Qle, Qeq, inject_Z. cbn [Qnum Qden].
  repeat split; try lia.
Qed.

(** A negative seat count is not refused.  With [-k] seats the allocator
    waitlists the [k] lowest-ranked candidates and admits all the others;
    the score it reports is a finite number that is not positive. *)
Theorem negative_seats_waitlist_the_last (k : positive)
  (pool : list Jumper.t) :
  let r := optimizeCapacity (Z.neg k) pool in
  let kept := (List.length pool - Pos.to_nat k)%nat in
  Capacity.selectedJumpers r = firstn kept (prioritizedJumpers pool)
  /\ Capacity.waitingList r = skipn kept (prioritizedJumpers pool)
  /\ exists q, Capacity.utilizationScore r = JS.Finite q /\ (q <= 0)%Q.
Proof.
  cbv zeta.
  assert (Hclamp : Z.to_nat (JS.clamp_index
                               (Z.of_nat (List.length
                                            (prioritizedJumpers pool)))
                               (Z.neg k))
                   = (List.length pool - Pos.to_nat k)%nat).
  { unfold prioritizedJumpers. rewrite sort_length.
    unfold JS.clamp_index. cbn [Z.ltb Z.compare]. lia. }
  unfold optimizeCapacity. cbv zeta.
  cbn [Capacity.selectedJumpers Capacity.waitingList
       Capacity.utilizationScore].
  rewrite slice_head, slice_tail, Hclamp.
  split; [reflexivity|]. split; [reflexivity|].
  destruct (times_div_neg
              (Z.of_nat (List.length
                 (firstn (List.length pool - Pos.to_nat k)
                         (prioritizedJumpers pool)))) 100 k)
    as (q & Hq & Hval).
  exists q. split; [exact Hq|]. rewrite Hval.
  unfold Qle. cbn [Qnum Qden]. lia.
Qed.

(* ================================================================== *)
(** ** Further properties: the recommendation generator *)
(* ================================================================== *)

(** The warnings come out in the order of their rules, each at most once:
    the list is the five messages, in rule order, with those not pushed
    left out. *)
Theorem recommendations_in_rule_order
  (groups : list JumpGroup.t) (allJumpers : list Jumper.t) :
  let recs := generateRecommendations groups allJumpers in
  recs = filter (fun m => existsb (String.eqb m) recs) allMessages
  /\ NoDup recs
  /\ (List.length recs <= 5)%nat.
Proof.
  cbv zeta. unfold generateRecommendations. cbv zeta.
  generalize (6 <? List.length (filter (is_type tandem) allJumpers))%nat.
  generalize (4 <? List.length (filter (is_type aff) allJumpers))%nat.
  generalize (5 <? List.length groups)%nat.
  generalize (uniqueInstructors allJumpers * 2
              <? List.length (instructorRequiredJumpers allJumpers))%nat.
  generalize (JS.gt (avgWeight allJumpers) 200).
  intros b5 b4 b3 b2 b1.
  destruct b1, b2, b3, b4, b5;
    (split; [vm_compute; reflexivity|]);
    (split; [|cbn; lia]);
    repeat (constructor; [cbn; intuition discriminate|]);
    constructor.
Qed.

Lemma In_presentIds (i : string) (ids : list (option string)) :
  In i (presentIds ids) <-> In (Some i) ids.
Proof.
  unfold presentIds. rewrite in_flat_map. split.
  - intros ([s|] & Hin & Hs); cbn in Hs; [|contradiction].
    destruct Hs as [<-|[]]. exact Hin.
  - intros H. exists (Some i). split; [exact H|now left].
Qed.

(** A set of optional ids has one member for each present id, and one for
    the absent id when it occurs. *)
Lemma set_size_split (ids : list (option string)) :
  JS.set_size ids
  = (List.length (nodup string_dec (presentIds ids))
     + (if existsb (fun i => match i with None => true | Some _ => false end)
                   ids
        then 1 else 0))%nat.
Proof.
  unfold JS.set_size.
  induction ids as [|[i|] ids IH]; [reflexivity| |].
  - cbn [nodup presentIds flat_map app existsb orb].
    fold (presentIds ids).
    destruct (in_dec JS.opt_string_dec (Some i) ids) as [Hin|Hout];
      destruct (in_dec string_dec i (presentIds ids)) as [Hin'|Hout'].
    + exact IH.
    + elim Hout'. now apply In_presentIds.
    + elim Hout. now apply In_presentIds.
    + cbn [List.length]. now rewrite IH.
  - cbn [nodup presentIds flat_map app existsb orb].
    fold (presentIds ids).
    destruct (in_dec JS.opt_string_dec None ids) as [Hin|Hout].
    + rewrite IH.
      replace (existsb _ ids) with true; [reflexivity|].
      symmetry. apply existsb_exists. now exists None.
    + cbn [List.length]. rewrite IH.
      replace (existsb _ ids) with false; [lia|].
      symmetry. apply not_true_iff_false. intros H.
      apply existsb_exists in H as ([s|] & Hin & Hs);
        [discriminate|contradiction].
Qed.

Lemma existsb_over_map {A B : Type} (test : B -> bool) (get : A -> B)
  (xs : list A) :
  existsb test (map get xs) = existsb (fun x => test (get x)) xs.
Proof.
  induction xs as [|x xs IH]; [reflexivity|].
  cbn [map existsb]. now rewrite IH.
Qed.

Lemma presentIds_of_required (allJumpers : list Jumper.t) :
  assignedInstructors allJumpers
  = nodup string_dec
      (presentIds (map Jumper.instructorId
                       (instructorRequiredJumpers allJumpers))).
Proof.
  unfold assignedInstructors, presentIds. f_equal.
  induction (instructorRequiredJumpers allJumpers) as [|j l IH];
    [reflexivity|].
  cbn [map flat_map]. now rewrite IH.
Qed.

(** What the instructor rule counts.  The size of the set is the number of
    distinct instructors assigned to the jumpers who need one, plus one as
    soon as one of those jumpers has none; so the warning is pushed exactly
    when the jumpers who need an instructor outnumber twice that count, and
    the rule is the ratio test on assigned instructors only when every such
    jumper has one. *)
Theorem instructor_rule_counts_missing_id
  (groups : list JumpGroup.t) (allJumpers : list Jumper.t) :
  let required := instructorRequiredJumpers allJumpers in
  let assigned := List.length (assignedInstructors allJumpers) in
  let missing := if existsb lacksInstructor required then 1%nat else 0%nat in
  uniqueInstructors allJumpers = (assigned + missing)%nat
  /\ (In msgInstructorCapacity (generateRecommendations groups allJumpers)
      <-> (2 * (assigned + missing) < List.length required)%nat)
  /\ (existsb lacksInstructor required = false ->
      (In msgInstructorCapacity (generateRecommendations groups allJumpers)
       <-> (2 * assigned < List.length required)%nat)).
Proof.
  cbv zeta.
  assert (Hsize : uniqueInstructors allJumpers
                  = (List.length (assignedInstructors allJumpers)
                     + (if existsb lacksInstructor
                                   (instructorRequiredJumpers allJumpers)
                        then 1 else 0))%nat).
  { unfold uniqueInstructors. rewrite set_size_split, presentIds_of_required.
    now rewrite existsb_over_map. }
  split; [exact Hsize|]. split.
  - rewrite instructor_warning_iff, Hsize. lia.
  - intros Hnone. rewrite instructor_warning_iff, Hsize, Hnone. lia.
Qed.

Lemma filter_perm {A : Type} (keep : A -> bool) (xs ys : list A) :
  Permutation xs ys -> Permutation (filter keep xs) (filter keep ys).
Proof.
  intros H. induction H as [|x xs ys _ IH|x y xs|xs ys zs _ IH1 _ IH2];
    cbn [filter].
  - constructor.
  - destruct (keep x); [now constructor|exact IH].
  - destruct (keep x), (keep y); try reflexivity. apply perm_swap.
  - now rewrite IH1.
Qed.

Lemma filter_length_perm {A : Type} (keep : A -> bool) (xs ys : list A) :
  Permutation xs ys ->
  List.length (filter keep xs) = List.length (filter keep ys).
Proof. intros H. now apply Permutation_length, filter_perm. Qed.

Lemma set_size_perm (ids ids' : list (option string)) :
  Permutation ids ids' -> JS.set_size ids = JS.set_size ids'.
Proof.
  intros H. unfold JS.set_size. apply Permutation_length.
  apply NoDup_Permutation; try apply NoDup_nodup.
  intros x. rewrite !nodup_In. split; apply Permutation_in;
    [exact H|now symmetry].
Qed.

(** For given groups, the warnings of the four rules that count jumpers
    (tandems, AFF students, groups, instructors) do not depend on the
    order in which the roster lists the jumpers.  The weight warning is
    left out: its sum is rounded in the order of the roster. *)
Theorem recommendations_ignore_roster_order
  (groups : list JumpGroup.t) (roster roster' : list Jumper.t) :
  Permutation roster roster' ->
  withoutWeightWarning (generateRecommendations groups roster)
  = withoutWeightWarning (generateRecommendations groups roster').
Proof.
  intros H. unfold generateRecommendations. cbv zeta.
  rewrite (filter_length_perm (is_type tandem) _ _ H).
  rewrite (filter_length_perm (is_type aff) _ _ H).
  assert (Hreq : Permutation (instructorRequiredJumpers roster)
                             (instructorRequiredJumpers roster'))
    by now apply filter_perm.
  rewrite (Permutation_length Hreq).
  unfold uniqueInstructors.
  rewrite (set_size_perm _ _ (Permutation_map Jumper.instructorId Hreq)).
  generalize (6 <? List.length (filter (is_type tandem) roster'))%nat.
  generalize (4 <? List.length (filter (is_type aff) roster'))%nat.
  generalize (5 <? List.length groups)%nat.
  generalize (JS.set_size (map Jumper.instructorId
                               (instructorRequiredJumpers roster')) * 2
              <? List.length (instructorRequiredJumpers roster'))%nat.
  generalize (JS.gt (avgWeight roster) 200).
  generalize (JS.gt (avgWeight roster') 200).
  intros w' w b4 b3 b2 b1.
  destruct w', w, b4, b3, b2, b1; vm_compute; reflexivity.
Qed.

(* ================================================================== *)
(** ** Further properties: groups and timing *)
(* ================================================================== *)

Lemma concat_length_bounds (gs : list JumpGroup.t) :
  Forall (fun g => withinCap g
                   /\ keyedBy (JumpGroup.groupType g) (JumpGroup.jumpers g)
                   /\ JumpGroup.jumpers g <> []) gs ->
  (List.length gs <= List.length (List.concat (map JumpGroup.jumpers gs))
   <= 8 * List.length gs)%nat.
Proof.
  induction 1 as [|g gs (Hcap & _ & Hne) _ IH]; cbn [map List.concat].
  - cbn. lia.
  - rewrite length_app. cbn [List.length]. unfold withinCap in Hcap.
    destruct (JumpGroup.jumpers g) as [|j js]; [now elim Hne|].
    cbn [List.length] in *. lia.
Qed.

Lemma load_total_time (roster : list Jumper.t) :
  OptimizedLoad.totalTime (calculateExitOrder roster)
  = 1170
    + 80 * Z.of_nat (List.length
                       (OptimizedLoad.groups (calculateExitOrder roster)))
    + 10 * Z.of_nat (List.length roster).
Proof.
  cbn [calculateExitOrder OptimizedLoad.totalTime OptimizedLoad.groups].
  unfold calculateTotalTime. cbv zeta.
  rewrite groupTimes_sum.
  - rewrite createJumpGroups_concat, sort_length. lia.
  - rewrite createJumpGroups_remaining.
    apply (remainingGroups_spec _ [] 0 EmptyString).
    repeat split; [cbn; lia|constructor].
Qed.

(** A load of [n] jumpers has between [n / 8] and [n] groups, each with an
    estimated time between 60 and 130 seconds, and a total time between
    [1170 + 20 * n] and [1170 + 90 * n] seconds. *)
Theorem group_count_and_time_bounds (roster : list Jumper.t) :
  let load := calculateExitOrder roster in
  let n := List.length roster in
  let k := List.length (OptimizedLoad.groups load) in
  (k <= n <= 8 * k)%nat
  /\ Forall (fun g => 60 <= JumpGroup.estimatedTime g <= 130)
            (OptimizedLoad.groups load)
  /\ 1170 + 20 * Z.of_nat n <= OptimizedLoad.totalTime load
     <= 1170 + 90 * Z.of_nat n.
Proof.
  cbv zeta.
  assert (Hk : (List.length (OptimizedLoad.groups (calculateExitOrder roster))
                <= List.length roster
                <= 8 * List.length
                         (OptimizedLoad.groups (calculateExitOrder roster)))%nat).
  { cbn [calculateExitOrder OptimizedLoad.groups].
    pose proof (concat_length_bounds _
                  (createJumpGroups_invariant
                     (JS.sort exitCompare roster))) as H.
    now rewrite createJumpGroups_concat, sort_length in H. }
  split; [exact Hk|]. split.
  - cbn [calculateExitOrder OptimizedLoad.groups].
    pose proof (createJumpGroups_invariant (JS.sort exitCompare roster))
      as Hcap.
    assert (Hdesc : Forall describesMembers
                           (createJumpGroups (JS.sort exitCompare roster))).
    { rewrite createJumpGroups_remaining.
      apply (remainingGroups_spec _ [] 0 EmptyString).
      repeat split; [cbn; lia|constructor]. }
    rewrite Forall_forall in *. intros g Hg.
    destruct (Hcap g Hg) as (Hc & _ & _).
    destruct (Hdesc g Hg) as (Hne & _ & ->).
    unfold withinCap in Hc.
    destruct (JumpGroup.jumpers g) as [|j js]; [now elim Hne|].
    cbn [List.length] in *. lia.
  - rewrite load_total_time. lia.
Qed.

Lemma boundary_same_key (key : string) (gs : list JumpGroup.t) :
  Forall (fun g => JumpGroup.groupType g = key) gs ->
  Sorted boundary gs ->
  Sorted (fun g _ => List.length (JumpGroup.jumpers g) = 8%nat) gs.
Proof.
  intros Hkey Hs. induction Hs as [|g gs Hs IH Hhd]; [constructor|].
  inversion Hkey as [|? ? Hg Hgs]; subst.
  constructor; [now apply IH|].
  destruct Hhd as [|h gs' Hb]; constructor.
  inversion Hgs as [|? ? Hh _]; subst.
  destruct Hb as [Hb|Hb]; [congruence|exact Hb].
Qed.

Lemma full_groups_count (gs : list JumpGroup.t) :
  Sorted (fun g _ => List.length (JumpGroup.jumpers g) = 8%nat) gs ->
  Forall (fun g => (1 <= List.length (JumpGroup.jumpers g) <= 8)%nat) gs ->
  gs <> [] ->
  (8 * (List.length gs - 1)
   < List.length (List.concat (map JumpGroup.jumpers gs))
   <= 8 * List.length gs)%nat.
Proof.
  induction 1 as [|g gs Hs IH Hhd]; intros Hall Hne; [now elim Hne|].
  inversion Hall as [|? ? Hg Hgs]; subst.
  cbn [map List.concat]. rewrite length_app.
  destruct Hhd as [|h gs' Hfull].
  - cbn. lia.
  - specialize (IH Hgs ltac:(discriminate)).
    cbn [List.length] in *. lia.
Qed.

(** Jumpers who all share one key (same jump type, same exit altitude) are
    cut into groups of 8, the remainder last: [n] of them make
    [ceil(n / 8)] groups, all labelled with their key. *)
Theorem uniform_roster_group_count (key : string) (roster : list Jumper.t) :
  Forall (fun j => groupKey j = key) roster ->
  let groups := OptimizedLoad.groups (calculateExitOrder roster) in
  Z.of_nat (List.length groups) = (Z.of_nat (List.length roster) + 7) / 8
  /\ Forall (fun g => JumpGroup.groupType g = key) groups
  /\ Sorted (fun g _ => List.length (JumpGroup.jumpers g) = 8%nat) groups.
Proof.
  intros Hkey. cbv zeta.
  cbn [calculateExitOrder OptimizedLoad.groups].
  set (gs := createJumpGroups (JS.sort exitCompare roster)).
  pose proof (createJumpGroups_invariant (JS.sort exitCompare roster))
    as Hinv. fold gs in Hinv.
  pose proof (createJumpGroups_concat (JS.sort exitCompare roster))
    as Hcat. fold gs in Hcat.
  assert (Hspec : Forall describesMembers gs /\ Sorted boundary gs).
  { unfold gs. rewrite createJumpGroups_remaining.
    destruct (remainingGroups_spec (JS.sort exitCompare roster)
                                   [] 0 EmptyString) as (Hd & Hs & _).
    - repeat split; [cbn; lia|constructor].
    - now split. }
  destruct Hspec as (Hdesc & Hbound).
  assert (Htypes : Forall (fun g => JumpGroup.groupType g = key) gs).
  { rewrite Forall_forall in *. intros g Hg.
    destruct (Hdesc g Hg) as (Hne & Hmem & _).
    destruct (JumpGroup.jumpers g) as [|j js] eqn:Ej; [now elim Hne|].
    inversion Hmem as [|? ? [Hj _] _]; subst.
    rewrite <- Hj. apply Hkey.
    apply (Permutation_in j (Permutation_sym (sort_perm exitCompare roster))).
    rewrite <- Hcat. apply in_concat.
    exists (JumpGroup.jumpers g). split.
    - now apply in_map.
    - rewrite Ej. now left. }
  pose proof (boundary_same_key key gs Htypes Hbound) as Hfull.
  split; [|split; assumption].
  assert (Hsizes : Forall (fun g => (1 <= List.length (JumpGroup.jumpers g)
                                     <= 8)%nat) gs).
  { eapply Forall_impl; [|exact Hinv]. cbv beta.
    intros g (Hc & _ & Hne). unfold withinCap in Hc.
    destruct (JumpGroup.jumpers g); [now elim Hne|].
    cbn [List.length] in *. lia. }
  assert (Hn : List.length (List.concat (map JumpGroup.jumpers gs))
               = List.length roster)
    by now rewrite Hcat, sort_length.
  destruct gs as [|g gs'] eqn:Eg.
  - cbn in Hn. rewrite <- Hn. reflexivity.
  - pose proof (full_groups_count (g :: gs') Hfull Hsizes
                                  ltac:(discriminate)) as Hc.
    rewrite Hn in Hc. cbn [List.length] in *.
    apply Z.div_unique with
      (r := Z.of_nat (List.length roster) + 7
            - 8 * Z.of_nat (S (List.length gs'))); lia.
Qed.

(* ================================================================== *)
(** ** Further properties: the LoadOptimizer component *)
(* ================================================================== *)

Section MapIndexed.

Context {A B : Type} (f : A -> nat -> B).

Lemma map_indexed_length (l : list A) (start : nat) :
  List.length (map_indexed f start l) = List.length l.
Proof.
  revert start. induction l as [|x l IH]; intros start; cbn; auto.
Qed.

Lemma map_indexed_nth_error (l : list A) (start i : nat) :
  nth_error (map_indexed f start l) i
  = option_map (fun x => f x (start + i)%nat) (nth_error l i).
Proof.
  revert start i. induction l as [|x l IH]; intros start [|i]; cbn;
    try reflexivity.
  - now rewrite Nat.add_0_r.
  - rewrite IH. now rewrite Nat.add_succ_r.
Qed.

Lemma map_indexed_Forall (P : B -> Prop) (l : list A) (start : nat) :
  (forall x i, P (f x i)) -> Forall P (map_indexed f start l).
Proof.
  intros H. revert start.
  induction l as [|x l IH]; intros start; cbn; constructor; auto.
Qed.

End MapIndexed.

Lemma convertEntry_normalized (r : RawJumper.t) (i : nat) :
  normalized (convertEntry r i).
Proof.
  unfold normalized, convertEntry, rawNeedsInstructor, is_type.
  cbn [Jumper.requiresInstructor Jumper.jumpType Jumper.weight
       Jumper.exitAltitude Jumper.id Jumper.name].
  repeat split.
  - destruct (RawJumper.jump_type r) as [[| | |]|]; reflexivity.
  - unfold JS.or_else. destruct (RawJumper.weight r) as [n|]; [|lia].
    destruct (Z.eqb_spec n 0); lia.
  - unfold JS.or_else. destruct (RawJumper.exit_altitude r) as [n|]; [|lia].
    destruct (Z.eqb_spec n 0); lia.
  - unfold JSText.or_else.
    destruct (RawJumper.id r) as [[|c s]|]; discriminate.
  - unfold JSText.or_else.
    destruct (RawJumper.jumper_name r) as [[|c s]|]; discriminate.
Qed.

(** The conversion keeps the roster's length and order, and whatever an
    entry lacks, the jumper it yields has: a non-empty id and name, a
    weight and an exit altitude that are not 0, and [requiresInstructor]
    set, to true exactly for tandems and AFF students. *)
Theorem conversion_normalizes (currentJumpers : list RawJumper.t) :
  let jumpersData := convertToOptimizationFormat currentJumpers in
  List.length jumpersData = List.length currentJumpers
  /\ (forall i,
         nth_error jumpersData i
         = option_map (fun r => convertEntry r i)
                      (nth_error currentJumpers i))
  /\ Forall normalized jumpersData
  /\ instructorRequiredJumpers jumpersData
     = filter (fun j => is_type tandem j || is_type aff j) jumpersData.
Proof.
  cbv zeta. unfold convertToOptimizationFormat.
  split; [apply map_indexed_length|].
  split; [intros i; apply map_indexed_nth_error|].
  assert (Hn : Forall normalized (map_indexed convertEntry 0 currentJumpers))
    by (apply map_indexed_Forall, convertEntry_normalized).
  split; [exact Hn|].
  unfold instructorRequiredJumpers. apply filter_ext_in.
  intros j Hj. rewrite Forall_forall in Hn.
  destruct (Hn j Hj) as (-> & _). reflexivity.
Qed.

Lemma synthesizedId_inj (i j : nat) :
  synthesizedId i = synthesizedId j -> i = j.
Proof.
  unfold synthesizedId. intros H.
  apply append_cancel_l, to_string_inj in H. lia.
Qed.

Lemma ids_without_supplied_id (l : list RawJumper.t) (start : nat) :
  Forall (fun r => rawHasNoId r = true) l ->
  map Jumper.id (map_indexed convertEntry start l)
  = map synthesizedId (seq start (List.length l)).
Proof.
  intros H. revert start.
  induction H as [|r l Hr _ IH]; intros start; [reflexivity|].
  cbn [map_indexed map List.length seq]. rewrite IH. f_equal.
  unfold convertEntry, rawHasNoId, synthesizedId in *.
  cbn [Jumper.id]. unfold JSText.or_else.
  destruct (RawJumper.id r) as [[|c s]|]; try reflexivity. discriminate.
Qed.

Lemma NoDup_map_injective {A B : Type} (f : A -> B) (l : list A) :
  (forall x y, f x = f y -> x = y) -> NoDup l -> NoDup (map f l).
Proof.
  intros Hinj. induction 1 as [|x l Hx _ IH]; cbn; constructor; auto.
  rewrite in_map_iff. intros (y & Hy & Hin).
  apply Hinj in Hy. now subst.
Qed.

(** When no entry brings an id, entry [i] is given the id [jumper-i], and
    the ids of the converted roster are pairwise distinct. *)
Theorem synthesized_ids_are_distinct (currentJumpers : list RawJumper.t) :
  Forall (fun r => rawHasNoId r = true) currentJumpers ->
  map Jumper.id (convertToOptimizationFormat currentJumpers)
  = map synthesizedId (seq 0 (List.length currentJumpers))
  /\ NoDup (map Jumper.id (convertToOptimizationFormat currentJumpers)).
Proof.
  intros H. unfold convertToOptimizationFormat.
  rewrite (ids_without_supplied_id _ 0 H). split; [reflexivity|].
  apply NoDup_map_injective; [apply synthesizedId_inj|apply seq_NoDup].
Qed.

Lemma string_length_append (a b : string) :
  String.length (a ++ b) = (String.length a + String.length b)%nat.
Proof. induction a as [|c a IH]; cbn; auto. Qed.

(** Two concatenations with tails of one length agree part by part. *)
Lemma append_split_by_length (a a' b b' : string) :
  (a ++ b)%string = (a' ++ b')%string ->
  String.length b = String.length b' ->
  a = a' /\ b = b'.
Proof.
  revert a'. induction a as [|c a IH]; intros [|c' a'] H Hlen; cbn in H.
  - now split.
  - exfalso. apply (f_equal String.length) in H. cbn in H.
    rewrite string_length_append in H. lia.
  - exfalso. apply (f_equal String.length) in H. cbn in H.
    rewrite string_length_append in H. lia.
  - injection H as -> H. destruct (IH a' H Hlen) as [-> ->]. now split.
Qed.

(** The seconds field of a duration: two digits that spell the number. *)
Lemma seconds_field (r : Z) :
  0 <= r < 60 ->
  readTwoDigits (JSText.padStart (JS.to_string r) 2 "0"%char) = Some r.
Proof.
  intros Hr.
  assert (E : r = Z.of_nat (Z.to_nat r)) by lia.
  assert (Hk : (Z.to_nat r < 60)%nat) by lia.
  rewrite E. generalize dependent (Z.to_nat r). clear. intros k _ Hk.
  do 60 (destruct k as [|k]; [vm_compute; reflexivity|]).
  lia.
Qed.

Lemma seconds_field_length (r : Z) :
  0 <= r < 60 ->
  String.length (JSText.padStart (JS.to_string r) 2 "0"%char) = 2%nat.
Proof.
  intros Hr. pose proof (seconds_field r Hr) as H.
  unfold readTwoDigits in H.
  destruct (JSText.padStart (JS.to_string r) 2 "0"%char)
    as [|a [|b [|c s]]]; try discriminate. reflexivity.
Qed.

(** For durations that are not negative, [formatTime] prints the minutes,
    a colon and a seconds field of exactly two digits that spell the
    seconds left over; so two different durations never print alike. *)
Theorem formatTime_distinguishes_durations (seconds seconds' : Z) :
  0 <= seconds -> 0 <= seconds' ->
  (exists field,
      formatTime seconds
      = (JS.to_string (seconds / 60) ++ ":" ++ field)%string
      /\ String.length field = 2%nat
      /\ readTwoDigits field = Some (seconds mod 60))
  /\ (formatTime seconds = formatTime seconds' -> seconds = seconds').
Proof.
  intros Hs Hs'.
  assert (Hr : 0 <= seconds mod 60 < 60) by (apply Z.mod_pos_bound; lia).
  assert (Hr' : 0 <= seconds' mod 60 < 60) by (apply Z.mod_pos_bound; lia).
  unfold formatTime. cbv zeta.
  rewrite !Z.rem_mod_nonneg by lia.
  split.
  - eexists. split; [reflexivity|].
    split; [now apply seconds_field_length|now apply seconds_field].
  - intros H.
    apply append_split_by_length in H as [Hmin Hsec];
      [|cbn [append String.length]; now rewrite !seconds_field_length].
    cbn [append] in Hsec. injection Hsec as Hsec.
    apply (f_equal readTwoDigits) in Hsec.
    rewrite !seconds_field in Hsec by assumption.
    injection Hsec as Hsec.
    apply to_string_inj in Hmin.
    rewrite (Z.div_mod seconds 60), (Z.div_mod seconds' 60) by lia.
    now rewrite Hmin, Hsec.
Qed.

Lemma aircraftCapacityOf_nonzero (capacity : option Z) :
  aircraftCapacityOf capacity <> 0.
Proof.
  unfold aircraftCapacityOf, JS.or_else.
  destruct capacity as [n|]; [|lia]. destruct (Z.eqb_spec n 0); lia.
Qed.

(** The utilization bar never divides by zero: the loads page replaces a
    missing or zero capacity by 15, so the value shown is a finite number.
    It is not capped: for a positive capacity it is above 100 exactly when
    the load has more jumpers than seats. *)
Theorem shown_utilization_is_finite (optimization : OptimizedLoad.t)
  (capacity : option Z) :
  (exists q,
      shownUtilization optimization (aircraftCapacityOf capacity)
      = JS.Finite q)
  /\ (0 < aircraftCapacityOf capacity ->
      (JS.gt (shownUtilization optimization (aircraftCapacityOf capacity))
             100 = true
       <-> aircraftCapacityOf capacity
           < Z.of_nat (List.length (OptimizedLoad.exitOrder optimization)))).
Proof.
  pose proof (aircraftCapacityOf_nonzero capacity) as Hnz.
  unfold shownUtilization.
  destruct (aircraftCapacityOf capacity) as [|p|p]; [now elim Hnz| |].
  - split.
    + destruct (times_div_pos
                  (Z.of_nat (List.length
                               (OptimizedLoad.exitOrder optimization)))
                  100 p) as (q & Hq & _).
      now exists q.
    + intros _.
      destruct (times_div_pos
                  (Z.of_nat (List.length
                               (OptimizedLoad.exitOrder optimization)))
                  100 p) as (q & Hq & Hval).
      rewrite Hq. unfold JS.gt.
      rewrite negb_true_iff, <- not_true_iff_false, Qle_bool_iff, Hval.
      unfold Qle, inject_Z. cbn [Qnum Qden]. lia.
  - split; [|lia].
    destruct (times_div_neg
                (Z.of_nat (List.length
                             (OptimizedLoad.exitOrder optimization)))
                100 p) as (q & Hq & _).
    now exists q.
Qed.

(* ================================================================== *)
(** ** Further properties: the weather and aircraft pages *)
(* ================================================================== *)

Lemma num_le_mono (a b c : Q) :
  (a <= b)%Q -> num_le b c = true -> num_le a c = true.
Proof.
  unfold num_le. rewrite !Qle_bool_iff. intros. now apply Qle_trans with b.
Qed.

Lemma num_ge_mono (a b c : Q) :
  (a <= b)%Q -> num_ge a c = true -> num_ge b c = true.
Proof.
  unfold num_ge. rewrite !Qle_bool_iff. intros. now apply Qle_trans with a.
Qed.

(** The three ratings are monotone: more wind never rates better, more
    visibility and a higher ceiling never rate worse. *)
Theorem weather_ratings_are_monotone (low high : Q) :
  (low <= high)%Q ->
  (conditionRank (getWindCondition low)
   <= conditionRank (getWindCondition high))%nat
  /\ (conditionRank (getVisibilityCondition high)
      <= conditionRank (getVisibilityCondition low))%nat
  /\ (conditionRank (getCeilingCondition high)
      <= conditionRank (getCeilingCondition low))%nat.
Proof.
  intros H. split; [|split].
  - unfold getWindCondition.
    destruct (num_le high (inject_Z 10)) eqn:E1;
      [rewrite (num_le_mono _ _ _ H E1); cbn; lia|].
    destruct (num_le high (inject_Z 15)) eqn:E2;
      [rewrite (num_le_mono _ _ _ H E2);
       destruct (num_le low (inject_Z 10)); cbn; lia|].
    destruct (num_le high (inject_Z 20)) eqn:E3;
      [rewrite (num_le_mono _ _ _ H E3);
       destruct (num_le low (inject_Z 10)), (num_le low (inject_Z 15));
       cbn; lia|].
    destruct (num_le low (inject_Z 10)), (num_le low (inject_Z 15)),
      (num_le low (inject_Z 20)); cbn; lia.
  - unfold getVisibilityCondition.
    destruct (num_ge low (inject_Z 10)) eqn:E1;
      [rewrite (num_ge_mono _ _ _ H E1); cbn; lia|].
    destruct (num_ge low (inject_Z 5)) eqn:E2;
      [rewrite (num_ge_mono _ _ _ H E2);
       destruct (num_ge high (inject_Z 10)); cbn; lia|].
    destruct (num_ge low (inject_Z 3)) eqn:E3;
      [rewrite (num_ge_mono _ _ _ H E3);
       destruct (num_ge high (inject_Z 10)), (num_ge high (inject_Z 5));
       cbn; lia|].
    destruct (num_ge high (inject_Z 10)), (num_ge high (inject_Z 5)),
      (num_ge high (inject_Z 3)); cbn; lia.
  - unfold getCeilingCondition.
    destruct (num_ge low (inject_Z 5000)) eqn:E1;
      [rewrite (num_ge_mono _ _ _ H E1); cbn; lia|].
    destruct (num_ge low (inject_Z 3000)) eqn:E2;
      [rewrite (num_ge_mono _ _ _ H E2);
       destruct (num_ge high (inject_Z 5000)); cbn; lia|].
    destruct (num_ge low (inject_Z 2000)) eqn:E3;
      [rewrite (num_ge_mono _ _ _ H E3);
       destruct (num_ge high (inject_Z 5000)), (num_ge high (inject_Z 3000));
       cbn; lia|].
    destruct (num_ge high (inject_Z 5000)), (num_ge high (inject_Z 3000)),
      (num_ge high (inject_Z 2000)); cbn; lia.
Qed.

Lemma totalCapacity_from (l : list Aircraft.t) (acc : Z) :
  fold_left
    (fun sum ac =>
       if JS.truthy (Aircraft.is_active ac)
       then sum + Aircraft.capacity ac else sum) l acc
  = acc + fold_right Z.add 0 (map Aircraft.capacity (activeAircraft l)).
Proof.
  revert acc. induction l as [|ac l IH]; intros acc;
    cbn [fold_left activeAircraft filter]; [cbn; lia|].
  rewrite IH. fold (activeAircraft l).
  destruct (JS.truthy (Aircraft.is_active ac)); cbn [map fold_right]; lia.
Qed.

(** The capacity total of the aircraft page is the sum of the capacities of
    the aircraft it lists as active; an aircraft whose [is_active] is false
    or missing adds nothing, wherever it stands in the list. *)
Theorem total_capacity_counts_active_only (aircraftList : list Aircraft.t) :
  totalCapacity aircraftList
  = fold_right Z.add 0 (map Aircraft.capacity (activeAircraft aircraftList))
  /\ (forall before after ac,
         JS.truthy (Aircraft.is_active ac) = false ->
         totalCapacity (before ++ ac :: after)
         = totalCapacity (before ++ after)).
Proof.
  assert (H : forall l, totalCapacity l
                        = fold_right Z.add 0
                            (map Aircraft.capacity (activeAircraft l))).
  { intros l. unfold totalCapacity. rewrite totalCapacity_from. lia. }
  split; [apply H|].
  intros before after ac Hoff. rewrite !H. unfold activeAircraft.
  rewrite !filter_app. cbn [filter]. now rewrite Hoff.
Qed.

(* ================================================================== *)
(** ** Further properties: conversion and priority together *)
(* ================================================================== *)

(** For jumpers as the conversion leaves them ([requiresInstructor] set
    for tandems and AFF students only), the priority bands of the jump
    types do not overlap: a jumper of a type with a higher base priority
    always outranks a jumper of a type with a lower one, whatever their
    experience. *)
Theorem normalized_priority_follows_type (a b : Jumper.t) :
  normalized a -> normalized b ->
  basePriority (Jumper.jumpType b) < basePriority (Jumper.jumpType a) ->
  getJumperPriority b < getJumperPriority a.
Proof.
  intros (Ha & _) (Hb & _). unfold getJumperPriority. cbv zeta.
  rewrite Ha, Hb. unfold is_type, basePriority. cbn [JS.truthy].
  destruct (Jumper.jumpType a), (Jumper.jumpType b),
    (Jumper.experienceLevel a), (Jumper.experienceLevel b);
    cbn [JumpType_eqb orb]; lia.
Qed.

(* ================================================================== *)
(** ** The further properties on sample inputs *)
(* ================================================================== *)

Lemma unmixed_sample : unmixed Sample.unmixedRoster.
Proof. left. repeat constructor; discriminate. Defined.

Lemma unmixed_roster_fully_sorted_witness :
  unmixed Sample.unmixedRoster
  /\ StronglySorted exitKeyOrder
       (OptimizedLoad.exitOrder (calculateExitOrder Sample.unmixedRoster)).
Proof.
  split; [exact unmixed_sample|].
  apply (unmixed_roster_fully_sorted Sample.unmixedRoster unmixed_sample).
Defined.

Lemma unmixedOrder_sorted : StronglySorted exitKeyOrder Sample.unmixedOrder.
Proof.
  unfold Sample.unmixedOrder.
  repeat (constructor; [|repeat constructor]); try constructor;
    left; cbn; lia.
Defined.

Lemma unmixedOrder_ties (t : JumpType) (alt rate : Z) :
  filter (jumperAt t alt rate) Sample.unmixedOrder
  = filter (jumperAt t alt rate) Sample.unmixedRoster.
Proof.
  unfold Sample.unmixedOrder, Sample.unmixedRoster, jumperAt, is_type.
  destruct t; cbn [filter Sample.f1 Sample.t1 Sample.a1 Sample.jumper
                   Jumper.jumpType JumpType_eqb andb]; reflexivity.
Defined.

Lemma unmixed_exit_order_is_unique_witness :
  unmixed Sample.unmixedRoster
  /\ StronglySorted exitKeyOrder Sample.unmixedOrder
  /\ Sample.unmixedOrder
     = OptimizedLoad.exitOrder (calculateExitOrder Sample.unmixedRoster).
Proof.
  split; [exact unmixed_sample|]. split; [exact unmixedOrder_sorted|].
  apply (unmixed_exit_order_is_unique
           Sample.unmixedRoster Sample.unmixedOrder
           unmixed_sample unmixedOrder_sorted unmixedOrder_ties).
Defined.

Lemma utilization_is_a_percentage_witness :
  0 < 3
  /\ exists q,
       Capacity.utilizationScore (optimizeCapacity 3 Sample.pool)
       = JS.Finite q
       /\ (0 <= q)%Q /\ (q <= inject_Z 100)%Q
       /\ ((q == inject_Z 100)%Q
           <-> 3 <= Z.of_nat (List.length Sample.pool)).
Proof.
  split; [lia|].
  apply (utilization_is_a_percentage 3 Sample.pool). lia.
Defined.

Lemma recommendations_ignore_roster_order_witness :
  Permutation [Sample.lowTandem; Sample.funJumper]
              [Sample.funJumper; Sample.lowTandem]
  /\ withoutWeightWarning
       (generateRecommendations [] [Sample.lowTandem; Sample.funJumper])
     = withoutWeightWarning
         (generateRecommendations [] [Sample.funJumper; Sample.lowTandem]).
Proof.
  split; [apply perm_swap|].
  apply (recommendations_ignore_roster_order
           [] [Sample.lowTandem; Sample.funJumper]
           [Sample.funJumper; Sample.lowTandem]).
  apply perm_swap.
Defined.

Lemma nineTandems_one_key :
  Forall (fun j => groupKey j = groupKey Sample.t1) Sample.nineTandems.
Proof. repeat constructor. Defined.

Lemma uniform_roster_group_count_witness :
  Forall (fun j => groupKey j = groupKey Sample.t1) Sample.nineTandems
  /\ Z.of_nat (List.length
                 (OptimizedLoad.groups
                    (calculateExitOrder Sample.nineTandems)))
     = (Z.of_nat (List.length Sample.nineTandems) + 7) / 8.
Proof.
  split; [exact nineTandems_one_key|].
  apply (uniform_roster_group_count
           (groupKey Sample.t1) Sample.nineTandems nineTandems_one_key).
Defined.

Lemma two_blank_entries :
  Forall (fun r => rawHasNoId r = true) [Sample.rawBlank; Sample.rawTandem].
Proof. repeat constructor. Defined.

Lemma synthesized_ids_are_distinct_witness :
  Forall (fun r => rawHasNoId r = true) [Sample.rawBlank; Sample.rawTandem]
  /\ NoDup (map Jumper.id
                (convertToOptimizationFormat
                   [Sample.rawBlank; Sample.rawTandem])).
Proof.
  split; [exact two_blank_entries|].
  apply (synthesized_ids_are_distinct
           [Sample.rawBlank; Sample.rawTandem] two_blank_entries).
Defined.

Lemma formatTime_distinguishes_durations_witness :
  0 <= 65 /\ 0 <= 125
  /\ (exists field,
         formatTime 65 = (JS.to_string (65 / 60) ++ ":" ++ field)%string
         /\ String.length field = 2%nat
         /\ readTwoDigits field = Some (65 mod 60))
  /\ (formatTime 65 = formatTime 125 -> 65 = 125).
Proof.
  split; [lia|]. split; [lia|].
  apply (formatTime_distinguishes_durations 65 125); lia.
Defined.

Lemma weather_ratings_are_monotone_witness :
  (inject_Z 12 <= inject_Z 18)%Q
  /\ (conditionRank (getWindCondition (inject_Z 12))
      <= conditionRank (getWindCondition (inject_Z 18)))%nat.
Proof.
  assert (H : (inject_Z 12 <= inject_Z 18)%Q)
    by (unfold Qle; cbn; lia).
  split; [exact H|].
  apply (weather_ratings_are_monotone (inject_Z 12) (inject_Z 18) H).
Defined.

Lemma normalized_priority_follows_type_witness :
  normalized (convertEntry Sample.rawTandem 0)
  /\ normalized (convertEntry Sample.rawBlank 1)
  /\ basePriority (Jumper.jumpType (convertEntry Sample.rawBlank 1))
     < basePriority (Jumper.jumpType (convertEntry Sample.rawTandem 0))
  /\ getJumperPriority (convertEntry Sample.rawBlank 1)
     < getJumperPriority (convertEntry Sample.rawTandem 0).
Proof.
  pose proof (convertEntry_normalized Sample.rawTandem 0) as Ha.
  pose proof (convertEntry_normalized Sample.rawBlank 1) as Hb.
  assert (Hlt : basePriority (Jumper.jumpType (convertEntry Sample.rawBlank 1))
                < basePriority
                    (Jumper.jumpType (convertEntry Sample.rawTandem 0)))
    by (cbn; lia).
  split; [exact Ha|]. split; [exact Hb|]. split; [exact Hlt|].
  apply (normalized_priority_follows_type _ _ Ha Hb Hlt).
Defined.
